(** * Wait conditions of the e2e-framework (klient/wait/conditions)

    A shallow embedding of [klient/wait/conditions/conditions.go] and the
    properties of its polling predicates.

    Go values are modelled as follows.
    - The string-backed enumerations of the Kubernetes API
      ([v1.PodPhase], [v1.ConditionStatus], ...) are [string]s, compared
      with [String.eqb] where the source uses [==].
    - [int32] is [Z]; the source only compares such values.
    - A pointer is a location [loc]; the store maps locations to what they
      point to.  A location that the store does not map is a nil pointer:
      reading through it panics.
    - A [k8s.Object] interface value is the location of the object; the
      dynamic type is the constructor of the [k8s.ObjectData] stored there.
    - A Go function that reads or writes the store, logs or may panic is a
      computation in the monad [M]. *)

From Stdlib Require Import ZArith String List Bool.
From stdpp Require Import base option gmap.

Local Open Scope string_scope.
Local Open Scope Z_scope.

Abbreviation loc := positive (only parsing).
Definition int32 := Z.

(** ** The API types the predicates inspect *)

Module metav1.
Definition StatusReason := string.
Definition StatusReasonUnknown : StatusReason := "".
Definition StatusReasonNotFound : StatusReason := "NotFound".

Record ObjectMeta := mkObjectMeta {
  Name : string;
  Namespace : string;
  ResourceVersion : string
}.
End metav1.

Module v1.
Definition ConditionStatus := string.
Definition ConditionTrue : ConditionStatus := "True".
Definition ConditionFalse : ConditionStatus := "False".
Definition ConditionUnknown : ConditionStatus := "Unknown".

Definition PodConditionType := string.
Definition ContainersReady : PodConditionType := "ContainersReady".
Definition PodInitialized : PodConditionType := "Initialized".
Definition PodReady : PodConditionType := "Ready".
Definition PodScheduled : PodConditionType := "PodScheduled".

Definition PodPhase := string.
Definition PodPending : PodPhase := "Pending".
Definition PodRunning : PodPhase := "Running".
Definition PodSucceeded : PodPhase := "Succeeded".
Definition PodFailed : PodPhase := "Failed".

Record PodCondition := mkPodCondition {
  PodCondition_Type : PodConditionType;
  PodCondition_Status : ConditionStatus;
  PodCondition_Reason : string;
  PodCondition_Message : string
}.

Record PodStatus := mkPodStatus {
  PodStatus_Phase : PodPhase;
  PodStatus_Conditions : list PodCondition
}.

Record Pod := mkPod {
  Pod_ObjectMeta : metav1.ObjectMeta;
  Pod_Status : PodStatus
}.
End v1.

Module batchv1.
Definition JobConditionType := string.
Definition JobSuspended : JobConditionType := "Suspended".
Definition JobComplete : JobConditionType := "Complete".
Definition JobFailed : JobConditionType := "Failed".

Record JobCondition := mkJobCondition {
  JobCondition_Type : JobConditionType;
  JobCondition_Status : v1.ConditionStatus;
  JobCondition_Reason : string;
  JobCondition_Message : string
}.

Record JobStatus := mkJobStatus {
  JobStatus_Conditions : list JobCondition;
  JobStatus_Succeeded : int32;
  JobStatus_Failed : int32
}.

Record Job := mkJob {
  Job_ObjectMeta : metav1.ObjectMeta;
  Job_Status : JobStatus
}.
End batchv1.

Module appsv1.
Record DeploymentStatus := mkDeploymentStatus {
  DeploymentStatus_Replicas : int32;
  DeploymentStatus_ReadyReplicas : int32
}.

Record Deployment := mkDeployment {
  Deployment_ObjectMeta : metav1.ObjectMeta;
  Deployment_Status : DeploymentStatus
}.
End appsv1.

(** ** Errors *)

(** A Go [error] value: either a status error of the API server, which
    carries a reason, or any other error. *)
Inductive error :=
  | StatusError (reason : metav1.StatusReason) (message : string)
  | OtherError (message : string).

Module errors.
Definition ReasonForError (err : error) : metav1.StatusReason :=
  match err with
  | StatusError reason _ => reason
  | OtherError _ => metav1.StatusReasonUnknown
  end.

(** [errors.IsNotFound]: the error is a status error whose reason is
    [metav1.StatusReasonNotFound]. *)
Definition IsNotFound (err : error) : bool :=
  String.eqb (ReasonForError err) metav1.StatusReasonNotFound.
End errors.

(** ** Objects *)

Module context.
(** The two empty contexts the predicates hand to the accessor. *)
Inductive Context := Background | TODO.
End context.

Module k8s.
(** The concrete kinds behind a [k8s.Object]: the two kinds the
    predicates assert on, and a scalable kind that is neither. *)
Inductive Kind := KPod | KJob | KDeployment.

Definition data (k : Kind) : Type :=
  match k with
  | KPod => v1.Pod
  | KJob => batchv1.Job
  | KDeployment => appsv1.Deployment
  end.

(** What a non-nil [k8s.Object] points to. *)
Inductive ObjectData :=
  | PodData (p : v1.Pod)
  | JobData (j : batchv1.Job)
  | DeploymentData (d : appsv1.Deployment).

Definition kind (d : ObjectData) : Kind :=
  match d with
  | PodData _ => KPod
  | JobData _ => KJob
  | DeploymentData _ => KDeployment
  end.

Definition meta (d : ObjectData) : metav1.ObjectMeta :=
  match d with
  | PodData p => v1.Pod_ObjectMeta p
  | JobData j => batchv1.Job_ObjectMeta j
  | DeploymentData d => appsv1.Deployment_ObjectMeta d
  end.

(** A [k8s.Object] interface value. *)
Abbreviation Object := positive (only parsing).
End k8s.

(** Modelled from the spec: the resource accessor [resources.Resources]
    (package klient/k8s/resources), of which the source only calls [Get].
    "Input: a resource-accessor capability providing
    [Get(context, name, namespace, targetObject) -> error], supplied
    externally"; the predicates "mutate [the target object] in place on each
    fetch".  The accessor is an arbitrary function from the request and the
    current contents of the target to the new contents and the returned
    error; it writes through the pointer it is given, so the target keeps
    its kind.  The value stored for an accessor stands for the accessor
    together with the cluster it currently observes. *)
Record Resources := mkResources {
  decode_into :
    forall k : k8s.Kind, context.Context -> string -> string ->
                         k8s.data k -> k8s.data k * option error
}.

Definition decode (r : Resources) (ctx : context.Context) (name namespace : string)
    (d : k8s.ObjectData) : k8s.ObjectData * option error :=
  match d with
  | k8s.PodData p =>
      let '(p', err) := decode_into r k8s.KPod ctx name namespace p in
      (k8s.PodData p', err)
  | k8s.JobData j =>
      let '(j', err) := decode_into r k8s.KJob ctx name namespace j in
      (k8s.JobData j', err)
  | k8s.DeploymentData w =>
      let '(w', err) := decode_into r k8s.KDeployment ctx name namespace w in
      (k8s.DeploymentData w', err)
  end.

(** ** The Condition struct, the store and the monad *)

Record Condition := mkCondition {
  resources : loc;
  verbose : bool
}.

(** One argument of a [Printf] call. *)
Inductive Arg :=
  | ArgString (s : string)
  | ArgInt32 (n : int32).

(** One line handed to the process-wide log sink: the format and its
    arguments. *)
Record LogEntry := mkLogEntry {
  format : string;
  args : list Arg
}.

Record State := mkState {
  objects : gmap positive k8s.ObjectData;
  accessors : gmap positive Resources;
  conditions : gmap positive Condition;
  sink : list LogEntry
}.

Inductive panic :=
  | NilPointerDereference
  | InterfaceConversion.

Inductive Outcome (A : Type) :=
  | Returned (a : A)
  | Panicked (p : panic).
Arguments Returned {A} a.
Arguments Panicked {A} p.

Definition M (A : Type) : Type := State -> Outcome A * State.

Definition ret {A} (a : A) : M A := fun st => (Returned a, st).

Definition bind {A B} (m : M A) (k : A -> M B) : M B :=
  fun st =>
    match m st with
    | (Returned a, st') => k a st'
    | (Panicked p, st') => (Panicked p, st')
    end.

Definition throw {A} (p : panic) : M A := fun st => (Panicked p, st).

Declare Scope go_scope.
Delimit Scope go_scope with go.
Notation "x <- m ;; k" := (bind m (fun x => k))
  (at level 100, m at next level, right associativity) : go_scope.
Notation "m ;; k" := (bind m (fun _ => k))
  (at level 100, right associativity) : go_scope.
Local Open Scope go_scope.

(** The value a computation returns or the panic it raises, and the store it
    leaves. *)
Definition result {A} (m : M A) (st : State) : Outcome A := fst (m st).
Definition after {A} (m : M A) (st : State) : State := snd (m st).

(** *** Store accesses *)

Definition load_object (obj : k8s.Object) : M k8s.ObjectData :=
  fun st =>
    match objects st !! obj with
    | Some d => (Returned d, st)
    | None => (Panicked NilPointerDereference, st)
    end.

Definition store_object (obj : k8s.Object) (d : k8s.ObjectData) : M unit :=
  fun st =>
    (Returned tt,
     {| objects := <[obj := d]> (objects st);
        accessors := accessors st;
        conditions := conditions st;
        sink := sink st |}).

Definition load_condition (c : loc) : M Condition :=
  fun st =>
    match conditions st !! c with
    | Some cond => (Returned cond, st)
    | None => (Panicked NilPointerDereference, st)
    end.

Definition store_condition (c : loc) (cond : Condition) : M unit :=
  fun st =>
    (Returned tt,
     {| objects := objects st;
        accessors := accessors st;
        conditions := <[c := cond]> (conditions st);
        sink := sink st |}).

Definition load_accessor (r : loc) : M Resources :=
  fun st =>
    match accessors st !! r with
    | Some a => (Returned a, st)
    | None => (Panicked NilPointerDereference, st)
    end.

(** A fresh location of the Condition store. *)
Definition fresh_condition (st : State) : loc :=
  fresh (dom (conditions st)).

(** *** The methods of [k8s.Object] the predicates call *)

Definition GetName (obj : k8s.Object) : M string :=
  d <- load_object obj ;;
  ret (metav1.Name (k8s.meta d)).

Definition GetNamespace (obj : k8s.Object) : M string :=
  d <- load_object obj ;;
  ret (metav1.Namespace (k8s.meta d)).

(** *** [log.Printf] *)

Definition Printf (message : string) (a : list Arg) : M unit :=
  fun st =>
    (Returned tt,
     {| objects := objects st;
        accessors := accessors st;
        conditions := conditions st;
        sink := sink st ++ [mkLogEntry message a] |}).

(** *** [Get] of the resource accessor *)

(** Modelled from the spec: [Get(context, name, namespace, targetObject)]
    of the accessor behind the pointer [r]: the accessor decodes into the
    target and returns its error. *)
Definition Get (r : loc) (ctx : context.Context) (name namespace : string)
    (obj : k8s.Object) : M (option error) :=
  a <- load_accessor r ;;
  d <- load_object obj ;;
  let '(d', err) := decode a ctx name namespace d in
  store_object obj d' ;;
  ret err.

(** *** The type assertions of an object to a pointer to Job and to Pod *)

Definition assert_Job (obj : k8s.Object) : M batchv1.Job :=
  d <- load_object obj ;;
  match d with
  | k8s.JobData j => ret j
  | _ => throw InterfaceConversion
  end.

Definition assert_Pod (obj : k8s.Object) : M v1.Pod :=
  d <- load_object obj ;;
  match d with
  | k8s.PodData p => ret p
  | _ => throw InterfaceConversion
  end.

(** ** The package: [Condition] and its predicates *)

(** [apimachinerywait.ConditionFunc]: [func() (done bool, err error)]. *)
Definition ConditionFunc := M (bool * option error).

(** [New]: allocates [Condition{resources: r}]; [verbose] has its zero
    value. *)
Definition New (r : loc) : M loc :=
  fun st =>
    let c := fresh_condition st in
    (store_condition c {| resources := r; verbose := false |} ;; ret c) st.

(** [WithVerboseLog]: sets [c.verbose] in place and returns [c]. *)
Definition WithVerboseLog (c : loc) : M loc :=
  cond <- load_condition c ;;
  store_condition c {| resources := resources cond; verbose := true |} ;;
  ret c.

(** [log]: forwards to [log.Printf] when [c.verbose] is set. *)
Definition log (c : loc) (message : string) (a : list Arg) : M unit :=
  cond <- load_condition c ;;
  if verbose cond then Printf message a else ret tt.

(** [c.resources.Get(ctx, obj.GetName(), obj.GetNamespace(), obj)], with
    its operands evaluated from left to right. *)
Definition resources_Get (c : loc) (ctx : context.Context) (obj : k8s.Object)
    : M (option error) :=
  cond <- load_condition c ;;
  name <- GetName obj ;;
  namespace <- GetNamespace obj ;;
  Get (resources cond) ctx name namespace obj.

Definition ResourceScaled (c : loc) (obj : k8s.Object)
    (scaleFetcher : k8s.ObjectData -> int32) (replica : int32) : ConditionFunc :=
  namespace <- GetNamespace obj ;;
  name <- GetName obj ;;
  log c "Checking if the resource %s/%s has been scaled to %d"
    [ArgString namespace; ArgString name; ArgInt32 replica] ;;
  err <- resources_Get c context.TODO obj ;;
  match err with
  | Some _ => ret (false, None)
  | None =>
      d <- load_object obj ;;
      ret (Z.eqb (scaleFetcher d) replica, None)
  end.

Definition ResourceDeleted (c : loc) (obj : k8s.Object) : ConditionFunc :=
  namespace <- GetNamespace obj ;;
  name <- GetName obj ;;
  log c "Checking for Resource deletion of %s/%s"
    [ArgString namespace; ArgString name] ;;
  err <- resources_Get c context.Background obj ;;
  match err with
  | Some err =>
      if errors.IsNotFound err then ret (true, None)
      else ret (false, Some err)
  | None => ret (false, None)
  end.

(** The loop of [JobConditionMatch]: [done] starts at its zero value and is
    set at every entry that matches. *)
Definition range_JobConditions (conds : list batchv1.JobCondition)
    (conditionType : batchv1.JobConditionType)
    (conditionState : v1.ConditionStatus) (done : bool) : bool :=
  fold_left
    (fun done cond =>
       if String.eqb (batchv1.JobCondition_Type cond) conditionType
          && String.eqb (batchv1.JobCondition_Status cond) conditionState
       then true else done)
    conds done.

Definition JobConditionMatch (c : loc) (job : k8s.Object)
    (conditionType : batchv1.JobConditionType)
    (conditionState : v1.ConditionStatus) : ConditionFunc :=
  namespace <- GetNamespace job ;;
  name <- GetName job ;;
  log c "Checking for Job Condition %s/%s on %s/%s"
    [ArgString conditionType; ArgString conditionState;
     ArgString namespace; ArgString name] ;;
  err <- resources_Get c context.TODO job ;;
  match err with
  | Some err => ret (false, Some err)
  | None =>
      j <- assert_Job job ;;
      let done :=
        range_JobConditions (batchv1.JobStatus_Conditions (batchv1.Job_Status j))
          conditionType conditionState false in
      ret (done, None)
  end.

(** The loop of [PodConditionMatch]. *)
Definition range_PodConditions (conds : list v1.PodCondition)
    (conditionType : v1.PodConditionType)
    (conditionState : v1.ConditionStatus) (done : bool) : bool :=
  fold_left
    (fun done cond =>
       if String.eqb (v1.PodCondition_Type cond) conditionType
          && String.eqb (v1.PodCondition_Status cond) conditionState
       then true else done)
    conds done.

Definition PodConditionMatch (c : loc) (pod : k8s.Object)
    (conditionType : v1.PodConditionType)
    (conditionState : v1.ConditionStatus) : ConditionFunc :=
  namespace <- GetNamespace pod ;;
  name <- GetName pod ;;
  log c "Checking for Pod Condition %s/%s on %s/%s"
    [ArgString conditionType; ArgString conditionState;
     ArgString namespace; ArgString name] ;;
  err <- resources_Get c context.TODO pod ;;
  match err with
  | Some err => ret (false, Some err)
  | None =>
      p <- assert_Pod pod ;;
      let done :=
        range_PodConditions (v1.PodStatus_Conditions (v1.Pod_Status p))
          conditionType conditionState false in
      ret (done, None)
  end.

Definition PodPhaseMatch (c : loc) (pod : k8s.Object) (phase : v1.PodPhase)
    : ConditionFunc :=
  namespace <- GetNamespace pod ;;
  name <- GetName pod ;;
  log c "Checking for Pod %v Condition of %s/%s"
    [ArgString phase; ArgString namespace; ArgString name] ;;
  err <- resources_Get c context.Background pod ;;
  match err with
  | Some err => ret (false, Some err)
  | None =>
      p <- assert_Pod pod ;;
      ret (String.eqb (v1.PodStatus_Phase (v1.Pod_Status p)) phase, None)
  end.

Definition PodReady (c : loc) (pod : k8s.Object) : ConditionFunc :=
  PodConditionMatch c pod v1.PodReady v1.ConditionTrue.

Definition ContainersReady (c : loc) (pod : k8s.Object) : ConditionFunc :=
  PodConditionMatch c pod v1.ContainersReady v1.ConditionTrue.

Definition PodRunning (c : loc) (pod : k8s.Object) : ConditionFunc :=
  PodPhaseMatch c pod v1.PodRunning.

Definition JobCompleted (c : loc) (job : k8s.Object) : ConditionFunc :=
  JobConditionMatch c job batchv1.JobComplete v1.ConditionTrue.

Definition JobFailed (c : loc) (job : k8s.Object) : ConditionFunc :=
  JobConditionMatch c job batchv1.JobFailed v1.ConditionTrue.

(** ** Specification vocabulary *)

(** The fetch a poll performs from store [st]: the new contents of the target
    and the error of [c.resources.Get(ctx, obj.GetName(), obj.GetNamespace(),
    obj)].  It is defined when [c], its accessor and [obj] are not nil. *)
Definition fetched (c : loc) (ctx : context.Context) (obj : k8s.Object)
    (st : State) : option (k8s.ObjectData * option error) :=
  match conditions st !! c, objects st !! obj with
  | Some cond, Some d =>
      match accessors st !! resources cond with
      | Some a =>
          Some (decode a ctx (metav1.Name (k8s.meta d))
                  (metav1.Namespace (k8s.meta d)) d)
      | None => None
      end
  | _, _ => None
  end.

(** The factories of the package, with the arguments they take besides the
    receiver and the object, and the predicate each one builds. *)
Inductive Factory :=
  | ResourceScaled_ (scaleFetcher : k8s.ObjectData -> int32) (replica : int32)
  | ResourceDeleted_
  | JobConditionMatch_ (conditionType : batchv1.JobConditionType)
      (conditionState : v1.ConditionStatus)
  | PodConditionMatch_ (conditionType : v1.PodConditionType)
      (conditionState : v1.ConditionStatus)
  | PodPhaseMatch_ (phase : v1.PodPhase)
  | PodReady_
  | ContainersReady_
  | PodRunning_
  | JobCompleted_
  | JobFailed_.

Definition predicate (F : Factory) (c : loc) (obj : k8s.Object) : ConditionFunc :=
  match F with
  | ResourceScaled_ scaleFetcher replica => ResourceScaled c obj scaleFetcher replica
  | ResourceDeleted_ => ResourceDeleted c obj
  | JobConditionMatch_ conditionType conditionState =>
      JobConditionMatch c obj conditionType conditionState
  | PodConditionMatch_ conditionType conditionState =>
      PodConditionMatch c obj conditionType conditionState
  | PodPhaseMatch_ phase => PodPhaseMatch c obj phase
  | PodReady_ => PodReady c obj
  | ContainersReady_ => ContainersReady c obj
  | PodRunning_ => PodRunning c obj
  | JobCompleted_ => JobCompleted c obj
  | JobFailed_ => JobFailed c obj
  end.

(** Whenever [f] returns an error, it returns done = false. *)
Definition error_excludes_done (f : ConditionFunc) : Prop :=
  forall st done err,
    result f st = Returned (done, Some err) -> done = false.

(** Two stores agree up to logging when they differ at most in the verbose
    flags of their Conditions and in what the log sink holds. *)
Definition agree_up_to_logging (st1 st2 : State) : Prop :=
  objects st1 = objects st2 /\
  accessors st1 = accessors st2 /\
  resources <$> conditions st1 = resources <$> conditions st2.

(** A computation is blind to logging when, from stores that agree up to
    logging, it returns the same value or raises the same panic and leaves
    stores that agree up to logging. *)
Definition blind_to_logging {A} (m : M A) : Prop :=
  forall st1 st2,
    agree_up_to_logging st1 st2 ->
    result m st1 = result m st2 /\
    agree_up_to_logging (after m st1) (after m st2).

(** A computation is silent for the Condition [c] when, started with the
    verbose flag of [c] cleared, it leaves the log sink and the Conditions as
    it found them. *)
Definition silent_for (c : loc) {A} (m : M A) : Prop :=
  forall st cond,
    conditions st !! c = Some cond ->
    verbose cond = false ->
    sink (after m st) = sink st /\
    conditions (after m st) = conditions st.

(** The context each factory hands to the accessor. *)
Definition context_of (F : Factory) : context.Context :=
  match F with
  | ResourceScaled_ _ _ => context.TODO
  | ResourceDeleted_ => context.Background
  | JobConditionMatch_ _ _ => context.TODO
  | PodConditionMatch_ _ _ => context.TODO
  | PodPhaseMatch_ _ => context.Background
  | PodReady_ => context.TODO
  | ContainersReady_ => context.TODO
  | PodRunning_ => context.Background
  | JobCompleted_ => context.TODO
  | JobFailed_ => context.TODO
  end.

(** A computation preserves the part [proj] of the store when it leaves that
    part as it found it, whether it returns or panics. *)
Definition preserves {X A} (proj : State -> X) (m : M A) : Prop :=
  forall st, proj (after m st) = proj st.

(** What a poll of [obj] must leave alone: the accessors, the Conditions and
    every object but [obj]. *)
Definition frame_of (obj : k8s.Object) (st : State)
    : gmap positive Resources * gmap positive Condition
      * gmap positive k8s.ObjectData :=
  (accessors st, conditions st, delete obj (objects st)).

(** ** A test cluster

    An accessor over a fixed list of objects, in the manner of a fake client:
    [Get] looks the object up by kind, name and namespace and fails with a
    not-found status error when it is absent. *)

Definition has_key (m : metav1.ObjectMeta) (name namespace : string) : bool :=
  String.eqb (metav1.Name m) name && String.eqb (metav1.Namespace m) namespace.

Fixpoint find_Pod (cluster : list k8s.ObjectData) (name namespace : string)
    : option v1.Pod :=
  match cluster with
  | [] => None
  | k8s.PodData p :: rest =>
      if has_key (v1.Pod_ObjectMeta p) name namespace then Some p
      else find_Pod rest name namespace
  | _ :: rest => find_Pod rest name namespace
  end.

Fixpoint find_Job (cluster : list k8s.ObjectData) (name namespace : string)
    : option batchv1.Job :=
  match cluster with
  | [] => None
  | k8s.JobData j :: rest =>
      if has_key (batchv1.Job_ObjectMeta j) name namespace then Some j
      else find_Job rest name namespace
  | _ :: rest => find_Job rest name namespace
  end.

Fixpoint find_Deployment (cluster : list k8s.ObjectData) (name namespace : string)
    : option appsv1.Deployment :=
  match cluster with
  | [] => None
  | k8s.DeploymentData w :: rest =>
      if has_key (appsv1.Deployment_ObjectMeta w) name namespace then Some w
      else find_Deployment rest name namespace
  | _ :: rest => find_Deployment rest name namespace
  end.

Definition not_found (name : string) : error :=
  StatusError metav1.StatusReasonNotFound name.

Definition found_or {T} (found : option T) (name : string) (target : T)
    : T * option error :=
  match found with
  | Some x => (x, None)
  | None => (target, Some (not_found name))
  end.

Definition serving (cluster : list k8s.ObjectData) : Resources :=
  {| decode_into := fun k _ name namespace =>
       match k return k8s.data k -> k8s.data k * option error with
       | k8s.KPod => found_or (find_Pod cluster name namespace) name
       | k8s.KJob => found_or (find_Job cluster name namespace) name
       | k8s.KDeployment => found_or (find_Deployment cluster name namespace) name
       end |}.

Definition connection_refused : error := OtherError "connection refused".

(** An accessor whose server cannot be reached. *)
Definition unreachable : Resources :=
  {| decode_into := fun _ _ _ _ target => (target, Some connection_refused) |}.

Definition web_meta : metav1.ObjectMeta :=
  {| metav1.Name := "web"; metav1.Namespace := "default";
     metav1.ResourceVersion := "1" |}.

Definition web_pending : v1.Pod :=
  {| v1.Pod_ObjectMeta := web_meta;
     v1.Pod_Status :=
       {| v1.PodStatus_Phase := v1.PodPending;
          v1.PodStatus_Conditions :=
            [v1.mkPodCondition v1.PodScheduled v1.ConditionTrue "" "";
             v1.mkPodCondition v1.PodReady v1.ConditionFalse
               "ContainersNotReady" ""] |} |}.

Definition web_running : v1.Pod :=
  {| v1.Pod_ObjectMeta := web_meta;
     v1.Pod_Status :=
       {| v1.PodStatus_Phase := v1.PodRunning;
          v1.PodStatus_Conditions :=
            [v1.mkPodCondition v1.PodScheduled v1.ConditionTrue "" "";
             v1.mkPodCondition v1.ContainersReady v1.ConditionTrue "" "";
             v1.mkPodCondition v1.PodReady v1.ConditionTrue "" ""] |} |}.

(** A job that reports both Complete and Failed. *)
Definition backup_job : batchv1.Job :=
  {| batchv1.Job_ObjectMeta :=
       {| metav1.Name := "backup"; metav1.Namespace := "default";
          metav1.ResourceVersion := "7" |};
     batchv1.Job_Status :=
       {| batchv1.JobStatus_Conditions :=
            [batchv1.mkJobCondition batchv1.JobFailed v1.ConditionTrue
               "BackoffLimitExceeded" "";
             batchv1.mkJobCondition batchv1.JobComplete v1.ConditionTrue "" ""];
          batchv1.JobStatus_Succeeded := 1;
          batchv1.JobStatus_Failed := 3 |} |}.

Definition web_deployment (replicas : int32) : appsv1.Deployment :=
  {| appsv1.Deployment_ObjectMeta := web_meta;
     appsv1.Deployment_Status :=
       {| appsv1.DeploymentStatus_Replicas := replicas;
          appsv1.DeploymentStatus_ReadyReplicas := replicas |} |}.

(** The replicas a test reads off a Deployment; other kinds have none. *)
Definition status_replicas (d : k8s.ObjectData) : int32 :=
  match d with
  | k8s.DeploymentData w =>
      appsv1.DeploymentStatus_Replicas (appsv1.Deployment_Status w)
  | _ => 0
  end.

(** A store with one Condition at location 1, whose accessor [a] is at
    location 2, and the target [target] at location 3. *)
Definition store_of (target : k8s.ObjectData) (a : Resources) (v : bool) : State :=
  {| objects := {[ 3%positive := target ]};
     accessors := {[ 2%positive := a ]};
     conditions := {[ 1%positive := {| resources := 2%positive; verbose := v |} ]};
     sink := [] |}.

(** ** Properties *)

Lemma fetched_Some c ctx obj st d' e :
  fetched c ctx obj st = Some (d', e) ->
  exists cond d a,
    conditions st !! c = Some cond /\
    objects st !! obj = Some d /\
    accessors st !! resources cond = Some a /\
    decode a ctx (metav1.Name (k8s.meta d)) (metav1.Namespace (k8s.meta d)) d
      = (d', e).
Proof.
  unfold fetched.
  destruct (conditions st !! c) as [cond|] eqn:Hc; [|discriminate].
  destruct (objects st !! obj) as [d|] eqn:Ho; [|discriminate].
  destruct (accessors st !! resources cond) as [a|] eqn:Ha; [|discriminate].
  intros [= H]. exists cond, d, a. auto.
Qed.

(** *** Running the primitives *)

Lemma GetName_run obj d st :
  objects st !! obj = Some d ->
  GetName obj st = (Returned (metav1.Name (k8s.meta d)), st).
Proof. intros H. unfold GetName, bind, load_object, ret. now rewrite H. Qed.

Lemma GetNamespace_run obj d st :
  objects st !! obj = Some d ->
  GetNamespace obj st = (Returned (metav1.Namespace (k8s.meta d)), st).
Proof. intros H. unfold GetNamespace, bind, load_object, ret. now rewrite H. Qed.

Lemma log_run c cond message a st :
  conditions st !! c = Some cond ->
  exists st',
    log c message a st = (Returned tt, st') /\
    objects st' = objects st /\
    accessors st' = accessors st /\
    conditions st' = conditions st.
Proof.
  intros H. unfold log, bind, load_condition. rewrite H.
  destruct (verbose cond); cbn; eauto.
Qed.

Lemma resources_Get_run c ctx obj st d' e :
  fetched c ctx obj st = Some (d', e) ->
  exists st',
    resources_Get c ctx obj st = (Returned e, st') /\
    objects st' = <[obj := d']> (objects st) /\
    accessors st' = accessors st /\
    conditions st' = conditions st.
Proof.
  intros H.
  destruct (fetched_Some _ _ _ _ _ _ H) as (cond & d & a & Hc & Ho & Ha & Hd).
  unfold resources_Get, bind, load_condition. rewrite Hc.
  rewrite (GetName_run _ _ _ Ho), (GetNamespace_run _ _ _ Ho).
  unfold Get, bind, load_accessor, load_object. rewrite Ha, Ho, Hd.
  cbn. eauto.
Qed.

Lemma fetched_ext c ctx obj st st' :
  objects st' = objects st ->
  accessors st' = accessors st ->
  conditions st' = conditions st ->
  fetched c ctx obj st' = fetched c ctx obj st.
Proof. intros Ho Ha Hc. unfold fetched. now rewrite Ho, Ha, Hc. Qed.

(** The part every predicate starts with: the arguments of the log line are
    read, the line is logged when verbose is set, and the target is
    fetched. *)
Lemma poll_run {A} c ctx obj message mkargs (k : option error -> M A) st d' e :
  fetched c ctx obj st = Some (d', e) ->
  exists st',
    (namespace <- GetNamespace obj ;;
     name <- GetName obj ;;
     log c message (mkargs namespace name) ;;
     err <- resources_Get c ctx obj ;;
     k err) st = k e st' /\
    objects st' = <[obj := d']> (objects st) /\
    accessors st' = accessors st /\
    conditions st' = conditions st.
Proof.
  intros H.
  destruct (fetched_Some _ _ _ _ _ _ H) as (cond & d & a & Hc & Ho & Ha & Hd).
  destruct (log_run c cond message
              (mkargs (metav1.Namespace (k8s.meta d)) (metav1.Name (k8s.meta d)))
              st Hc) as (st1 & Hlog & Ho1 & Ha1 & Hc1).
  rewrite <- (fetched_ext c ctx obj st st1 Ho1 Ha1 Hc1) in H.
  destruct (resources_Get_run _ _ _ _ _ _ H) as (st2 & Hget & Ho2 & Ha2 & Hc2).
  exists st2. split; [|repeat split; congruence].
  unfold bind at 1. rewrite (GetNamespace_run _ _ _ Ho).
  unfold bind at 1. rewrite (GetName_run _ _ _ Ho).
  unfold bind at 1. rewrite Hlog.
  unfold bind at 1. now rewrite Hget.
Qed.

Lemma load_object_after obj d' (st st' : State) :
  objects st' = <[obj := d']> (objects st) ->
  load_object obj st' = (Returned d', st').
Proof. intros H. unfold load_object. now rewrite H, lookup_insert_eq. Qed.

(** Steps a predicate, in the goal, through its fetch [H]; [st'] names the
    store the fetch leaves and [Ho] what it holds. *)
Ltac poll H st' Ho :=
  let E := fresh "E" in
  edestruct (poll_run (A := bool * option error)) as (st' & E & Ho & _ & _);
  [exact H|]; rewrite E; clear E.

(** C1. The predicate of ResourceDeleted returns (true, nil) when the fetch
    fails with a not-found error, (false, err) when it fails with any other
    error err, and (false, nil) when the fetch succeeds. *)
Theorem ResourceDeleted_spec c obj st d' :
  (forall err,
      fetched c context.Background obj st = Some (d', Some err) ->
      errors.IsNotFound err = true ->
      result (ResourceDeleted c obj) st = Returned (true, None)) /\
  (forall err,
      fetched c context.Background obj st = Some (d', Some err) ->
      errors.IsNotFound err = false ->
      result (ResourceDeleted c obj) st = Returned (false, Some err)) /\
  (fetched c context.Background obj st = Some (d', None) ->
   result (ResourceDeleted c obj) st = Returned (false, None)).
Proof.
  unfold ResourceDeleted, result.
  repeat split.
  - intros err H Hnf. poll H st' Ho. cbn. now rewrite Hnf.
  - intros err H Hnf. poll H st' Ho. cbn. now rewrite Hnf.
  - intros H. poll H st' Ho. reflexivity.
Qed.

(** C2. When the fetch succeeds, the predicate of ResourceScaled returns
    (true, nil) exactly when scaleFetcher, applied to the object as just
    fetched, equals replica, and (false, nil) for any other value. *)
Theorem ResourceScaled_spec c obj scaleFetcher replica st d' :
  fetched c context.TODO obj st = Some (d', None) ->
  (result (ResourceScaled c obj scaleFetcher replica) st = Returned (true, None)
   <-> scaleFetcher d' = replica) /\
  (scaleFetcher d' <> replica ->
   result (ResourceScaled c obj scaleFetcher replica) st = Returned (false, None)).
Proof.
  intros H. unfold ResourceScaled, result.
  poll H st' Ho.
  unfold bind. rewrite (load_object_after _ _ _ _ Ho). cbn.
  destruct (Z.eqb_spec (scaleFetcher d') replica) as [E|E].
  - split; [tauto|contradiction].
  - split; [|reflexivity]. split; [discriminate|contradiction].
Qed.

Lemma bind_Returned {A B} (m : M A) (k : A -> M B) st b st'' :
  bind m k st = (Returned b, st'') ->
  exists a st', m st = (Returned a, st') /\ k a st' = (Returned b, st'').
Proof.
  unfold bind. destruct (m st) as [[a|p] st']; [eauto|discriminate].
Qed.

Lemma result_Returned {A} (m : M A) st a :
  result m st = Returned a -> exists st', m st = (Returned a, st').
Proof.
  unfold result. destruct (m st) as [o st']. cbn. intros ->. eauto.
Qed.

(** Inverts, in hypothesis [H], the binds a returning computation went
    through. *)
Ltac unbind H :=
  repeat
    (let a := fresh "a" in
     let st' := fresh "st" in
     let E := fresh "E" in
     apply bind_Returned in H; destruct H as (a & st' & E & H)).

Lemma ResourceScaled_no_error c obj scaleFetcher replica st done e :
  result (ResourceScaled c obj scaleFetcher replica) st = Returned (done, e) ->
  e = None.
Proof.
  intros H. apply result_Returned in H as [st1 E].
  unfold ResourceScaled in E. unbind E.
  destruct a2 as [err|].
  - now injection E as [= _ <-].
  - unbind E. now injection E as [= _ <-].
Qed.

(** C3. On a fetch error the predicate of ResourceScaled returns
    (false, nil), and it returns no error from any store; the predicates of
    JobConditionMatch, PodConditionMatch and PodPhaseMatch return
    (false, err) with the error of the fetch. *)
Theorem fetch_error_policy c obj d' err :
  (forall scaleFetcher replica st,
      fetched c context.TODO obj st = Some (d', Some err) ->
      result (ResourceScaled c obj scaleFetcher replica) st
        = Returned (false, None)) /\
  (forall scaleFetcher replica st done e,
      result (ResourceScaled c obj scaleFetcher replica) st = Returned (done, e) ->
      e = None) /\
  (forall conditionType conditionState st,
      fetched c context.TODO obj st = Some (d', Some err) ->
      result (JobConditionMatch c obj conditionType conditionState) st
        = Returned (false, Some err)) /\
  (forall conditionType conditionState st,
      fetched c context.TODO obj st = Some (d', Some err) ->
      result (PodConditionMatch c obj conditionType conditionState) st
        = Returned (false, Some err)) /\
  (forall phase st,
      fetched c context.Background obj st = Some (d', Some err) ->
      result (PodPhaseMatch c obj phase) st = Returned (false, Some err)).
Proof.
  repeat split.
  - intros sf n st H. unfold ResourceScaled, result. poll H st' Ho. reflexivity.
  - intros sf n st done e. apply ResourceScaled_no_error.
  - intros T S st H. unfold JobConditionMatch, result. poll H st' Ho. reflexivity.
  - intros T S st H. unfold PodConditionMatch, result. poll H st' Ho. reflexivity.
  - intros phase st H. unfold PodPhaseMatch, result. poll H st' Ho. reflexivity.
Qed.

(** *** The loops *)

Section Range.
Context {A : Type} (matches : A -> bool).

Lemma fold_set_done (l : list A) (done : bool) :
  fold_left (fun done x => if matches x then true else done) l done
  = done || existsb matches l.
Proof.
  revert done. induction l as [|x l IH]; intros done; cbn.
  - now rewrite orb_false_r.
  - rewrite IH. destruct (matches x), done; reflexivity.
Qed.
End Range.

Lemma range_PodConditions_true conds conditionType conditionState :
  range_PodConditions conds conditionType conditionState false = true <->
  exists cond, In cond conds /\
               v1.PodCondition_Type cond = conditionType /\
               v1.PodCondition_Status cond = conditionState.
Proof.
  unfold range_PodConditions.
  rewrite (fold_set_done
             (fun cond => String.eqb (v1.PodCondition_Type cond) conditionType
                          && String.eqb (v1.PodCondition_Status cond) conditionState)).
  cbn. rewrite existsb_exists.
  split; intros (cond & Hin & H); exists cond; (split; [exact Hin|]).
  - apply andb_true_iff in H as [H1 H2].
    now apply String.eqb_eq in H1, H2.
  - destruct H as [H1 H2]. apply andb_true_iff.
    now split; apply String.eqb_eq.
Qed.

Lemma range_JobConditions_true conds conditionType conditionState :
  range_JobConditions conds conditionType conditionState false = true <->
  exists cond, In cond conds /\
               batchv1.JobCondition_Type cond = conditionType /\
               batchv1.JobCondition_Status cond = conditionState.
Proof.
  unfold range_JobConditions.
  rewrite (fold_set_done
             (fun cond => String.eqb (batchv1.JobCondition_Type cond) conditionType
                          && String.eqb (batchv1.JobCondition_Status cond) conditionState)).
  cbn. rewrite existsb_exists.
  split; intros (cond & Hin & H); exists cond; (split; [exact Hin|]).
  - apply andb_true_iff in H as [H1 H2].
    now apply String.eqb_eq in H1, H2.
  - destruct H as [H1 H2]. apply andb_true_iff.
    now split; apply String.eqb_eq.
Qed.

Lemma PodConditionMatch_run c pod conditionType conditionState st p :
  fetched c context.TODO pod st = Some (k8s.PodData p, None) ->
  result (PodConditionMatch c pod conditionType conditionState) st
  = Returned
      (range_PodConditions (v1.PodStatus_Conditions (v1.Pod_Status p))
         conditionType conditionState false, None).
Proof.
  intros H. unfold PodConditionMatch, result. poll H st' Ho.
  unfold assert_Pod, bind. now rewrite (load_object_after _ _ _ _ Ho).
Qed.

Lemma JobConditionMatch_run c job conditionType conditionState st j :
  fetched c context.TODO job st = Some (k8s.JobData j, None) ->
  result (JobConditionMatch c job conditionType conditionState) st
  = Returned
      (range_JobConditions (batchv1.JobStatus_Conditions (batchv1.Job_Status j))
         conditionType conditionState false, None).
Proof.
  intros H. unfold JobConditionMatch, result. poll H st' Ho.
  unfold assert_Job, bind. now rewrite (load_object_after _ _ _ _ Ho).
Qed.

(** C4. When the fetch succeeds, the predicate of PodConditionMatch returns
    done = true, with a nil error, exactly when the pod's status condition
    list has an entry of the given type and status; an empty list gives
    (false, nil).  The same holds of JobConditionMatch and the job's status
    condition list. *)
Theorem ConditionMatch_spec c obj conditionType conditionState st :
  (forall p,
      fetched c context.TODO obj st = Some (k8s.PodData p, None) ->
      exists done,
        result (PodConditionMatch c obj conditionType conditionState) st
          = Returned (done, None) /\
        (done = true <->
         exists cond,
           In cond (v1.PodStatus_Conditions (v1.Pod_Status p)) /\
           v1.PodCondition_Type cond = conditionType /\
           v1.PodCondition_Status cond = conditionState) /\
        (v1.PodStatus_Conditions (v1.Pod_Status p) = [] -> done = false)) /\
  (forall j,
      fetched c context.TODO obj st = Some (k8s.JobData j, None) ->
      exists done,
        result (JobConditionMatch c obj conditionType conditionState) st
          = Returned (done, None) /\
        (done = true <->
         exists cond,
           In cond (batchv1.JobStatus_Conditions (batchv1.Job_Status j)) /\
           batchv1.JobCondition_Type cond = conditionType /\
           batchv1.JobCondition_Status cond = conditionState) /\
        (batchv1.JobStatus_Conditions (batchv1.Job_Status j) = [] ->
         done = false)).
Proof.
  split.
  - intros p H. eexists. split; [exact (PodConditionMatch_run _ _ _ _ _ _ H)|].
    split; [apply range_PodConditions_true|].
    now intros ->.
  - intros j H. eexists. split; [exact (JobConditionMatch_run _ _ _ _ _ _ H)|].
    split; [apply range_JobConditions_true|].
    now intros ->.
Qed.

(** C5. When the fetch succeeds, the predicate of PodPhaseMatch returns
    (true, nil) exactly when the phase of the pod's status, as the fetch
    left it, equals the given phase, and (false, nil) otherwise. *)
Theorem PodPhaseMatch_spec c pod phase st p :
  fetched c context.Background pod st = Some (k8s.PodData p, None) ->
  (result (PodPhaseMatch c pod phase) st = Returned (true, None)
   <-> v1.PodStatus_Phase (v1.Pod_Status p) = phase) /\
  (v1.PodStatus_Phase (v1.Pod_Status p) <> phase ->
   result (PodPhaseMatch c pod phase) st = Returned (false, None)).
Proof.
  intros H. unfold PodPhaseMatch, result. poll H st' Ho.
  unfold assert_Pod, bind. rewrite (load_object_after _ _ _ _ Ho). cbn.
  destruct (String.eqb_spec (v1.PodStatus_Phase (v1.Pod_Status p)) phase) as [E|E].
  - split; [tauto|contradiction].
  - split; [|reflexivity]. split; [discriminate|contradiction].
Qed.

(** C6. Each derived predicate is the general factory at fixed arguments:
    PodReady is PodConditionMatch at (Ready, True), ContainersReady is
    PodConditionMatch at (ContainersReady, True), PodRunning is
    PodPhaseMatch at Running, JobCompleted is JobConditionMatch at
    (Complete, True) and JobFailed is JobConditionMatch at (Failed, True);
    they return the same value and leave the same store from every store. *)
Theorem derived_predicates c obj st :
  PodReady c obj st = PodConditionMatch c obj "Ready" "True" st /\
  ContainersReady c obj st = PodConditionMatch c obj "ContainersReady" "True" st /\
  PodRunning c obj st = PodPhaseMatch c obj "Running" st /\
  JobCompleted c obj st = JobConditionMatch c obj "Complete" "True" st /\
  JobFailed c obj st = JobConditionMatch c obj "Failed" "True" st.
Proof. repeat split. Qed.

(** *** No result carries both done and an error *)

Lemma ResourceScaled_error_excludes_done c obj scaleFetcher replica :
  error_excludes_done (ResourceScaled c obj scaleFetcher replica).
Proof.
  intros st done err H.
  now apply ResourceScaled_no_error in H.
Qed.

Lemma ResourceDeleted_error_excludes_done c obj :
  error_excludes_done (ResourceDeleted c obj).
Proof.
  intros st done err H. apply result_Returned in H as [st1 E].
  unfold ResourceDeleted in E. unbind E.
  destruct a2 as [e|]; [destruct (errors.IsNotFound e)|];
    unfold ret in E; congruence.
Qed.

Lemma JobConditionMatch_error_excludes_done c job conditionType conditionState :
  error_excludes_done (JobConditionMatch c job conditionType conditionState).
Proof.
  intros st done err H. apply result_Returned in H as [st1 E].
  unfold JobConditionMatch in E. unbind E.
  destruct a2 as [e|].
  - now injection E as [= <- _].
  - unbind E. discriminate E.
Qed.

Lemma PodConditionMatch_error_excludes_done c pod conditionType conditionState :
  error_excludes_done (PodConditionMatch c pod conditionType conditionState).
Proof.
  intros st done err H. apply result_Returned in H as [st1 E].
  unfold PodConditionMatch in E. unbind E.
  destruct a2 as [e|].
  - now injection E as [= <- _].
  - unbind E. discriminate E.
Qed.

Lemma PodPhaseMatch_error_excludes_done c pod phase :
  error_excludes_done (PodPhaseMatch c pod phase).
Proof.
  intros st done err H. apply result_Returned in H as [st1 E].
  unfold PodPhaseMatch in E. unbind E.
  destruct a2 as [e|].
  - now injection E as [= <- _].
  - unbind E. discriminate E.
Qed.

(** C7. No predicate of any factory returns done = true together with an
    error: whenever the returned error is not nil, done is false. *)
Theorem error_implies_not_done F c obj st done err :
  result (predicate F c obj) st = Returned (done, Some err) ->
  done = false.
Proof.
  revert st done err. change (error_excludes_done (predicate F c obj)).
  destruct F; cbn [predicate];
    unfold PodReady, ContainersReady, PodRunning, JobCompleted, JobFailed;
    auto using ResourceScaled_error_excludes_done,
      ResourceDeleted_error_excludes_done,
      JobConditionMatch_error_excludes_done,
      PodConditionMatch_error_excludes_done,
      PodPhaseMatch_error_excludes_done.
Qed.

(** *** The type assertions *)

Lemma decode_kind a ctx name namespace d :
  k8s.kind (decode a ctx name namespace d).1 = k8s.kind d.
Proof.
  destruct d; cbn; now destruct (decode_into a _ ctx name namespace _).
Qed.

Lemma fetched_kind c ctx obj st d d' e :
  objects st !! obj = Some d ->
  fetched c ctx obj st = Some (d', e) ->
  k8s.kind d' = k8s.kind d.
Proof.
  intros Ho H.
  destruct (fetched_Some _ _ _ _ _ _ H) as (cond & d0 & a & _ & Ho' & _ & Hd).
  assert (d0 = d) as -> by congruence.
  rewrite <- (decode_kind a ctx (metav1.Name (k8s.meta d))
                (metav1.Namespace (k8s.meta d)) d).
  now rewrite Hd.
Qed.

Lemma fetched_defined c ctx obj st cond a d :
  conditions st !! c = Some cond ->
  accessors st !! resources cond = Some a ->
  objects st !! obj = Some d ->
  exists d' e, fetched c ctx obj st = Some (d', e).
Proof.
  intros Hc Ha Ho. unfold fetched. rewrite Hc, Ho, Ha.
  destruct (decode _ _ _ _ _) as [d' e]. eauto.
Qed.

Lemma assert_Job_after job d' (st st' : State) :
  objects st' = <[job := d']> (objects st) ->
  assert_Job job st'
  = match d' with
    | k8s.JobData j => (Returned j, st')
    | _ => (Panicked InterfaceConversion, st')
    end.
Proof.
  intros Ho. unfold assert_Job, bind.
  rewrite (load_object_after _ _ _ _ Ho). now destruct d'.
Qed.

Lemma assert_Pod_after pod d' (st st' : State) :
  objects st' = <[pod := d']> (objects st) ->
  assert_Pod pod st'
  = match d' with
    | k8s.PodData p => (Returned p, st')
    | _ => (Panicked InterfaceConversion, st')
    end.
Proof.
  intros Ho. unfold assert_Pod, bind.
  rewrite (load_object_after _ _ _ _ Ho). now destruct d'.
Qed.

Lemma JobConditionMatch_returns c job conditionType conditionState st cond a j :
  conditions st !! c = Some cond ->
  accessors st !! resources cond = Some a ->
  objects st !! job = Some (k8s.JobData j) ->
  exists r, result (JobConditionMatch c job conditionType conditionState) st
            = Returned r.
Proof.
  intros Hc Ha Ho.
  destruct (fetched_defined c context.TODO job st _ _ _ Hc Ha Ho) as (d' & e & H).
  pose proof (fetched_kind _ _ _ _ _ _ _ Ho H) as Hk.
  unfold JobConditionMatch, result. poll H st' Ho'.
  destruct e as [err|]; [cbn; eauto|].
  unfold bind. rewrite (assert_Job_after _ _ _ _ Ho').
  destruct d'; try discriminate Hk. cbn. eauto.
Qed.

Lemma PodConditionMatch_returns c pod conditionType conditionState st cond a p :
  conditions st !! c = Some cond ->
  accessors st !! resources cond = Some a ->
  objects st !! pod = Some (k8s.PodData p) ->
  exists r, result (PodConditionMatch c pod conditionType conditionState) st
            = Returned r.
Proof.
  intros Hc Ha Ho.
  destruct (fetched_defined c context.TODO pod st _ _ _ Hc Ha Ho) as (d' & e & H).
  pose proof (fetched_kind _ _ _ _ _ _ _ Ho H) as Hk.
  unfold PodConditionMatch, result. poll H st' Ho'.
  destruct e as [err|]; [cbn; eauto|].
  unfold bind. rewrite (assert_Pod_after _ _ _ _ Ho').
  destruct d'; try discriminate Hk. cbn. eauto.
Qed.

Lemma PodPhaseMatch_returns c pod phase st cond a p :
  conditions st !! c = Some cond ->
  accessors st !! resources cond = Some a ->
  objects st !! pod = Some (k8s.PodData p) ->
  exists r, result (PodPhaseMatch c pod phase) st = Returned r.
Proof.
  intros Hc Ha Ho.
  destruct (fetched_defined c context.Background pod st _ _ _ Hc Ha Ho)
    as (d' & e & H).
  pose proof (fetched_kind _ _ _ _ _ _ _ Ho H) as Hk.
  unfold PodPhaseMatch, result. poll H st' Ho'.
  destruct e as [err|]; [cbn; eauto|].
  unfold bind. rewrite (assert_Pod_after _ _ _ _ Ho').
  destruct d'; try discriminate Hk. cbn. eauto.
Qed.

Lemma JobConditionMatch_panics c obj conditionType conditionState st d d' :
  objects st !! obj = Some d ->
  k8s.kind d <> k8s.KJob ->
  fetched c context.TODO obj st = Some (d', None) ->
  result (JobConditionMatch c obj conditionType conditionState) st
  = Panicked InterfaceConversion.
Proof.
  intros Ho Hk H.
  rewrite <- (fetched_kind _ _ _ _ _ _ _ Ho H) in Hk.
  unfold JobConditionMatch, result. poll H st' Ho'.
  unfold bind. rewrite (assert_Job_after _ _ _ _ Ho').
  now destruct d'.
Qed.

Lemma PodConditionMatch_panics c obj conditionType conditionState st d d' :
  objects st !! obj = Some d ->
  k8s.kind d <> k8s.KPod ->
  fetched c context.TODO obj st = Some (d', None) ->
  result (PodConditionMatch c obj conditionType conditionState) st
  = Panicked InterfaceConversion.
Proof.
  intros Ho Hk H.
  rewrite <- (fetched_kind _ _ _ _ _ _ _ Ho H) in Hk.
  unfold PodConditionMatch, result. poll H st' Ho'.
  unfold bind. rewrite (assert_Pod_after _ _ _ _ Ho').
  now destruct d'.
Qed.

Lemma PodPhaseMatch_panics c obj phase st d d' :
  objects st !! obj = Some d ->
  k8s.kind d <> k8s.KPod ->
  fetched c context.Background obj st = Some (d', None) ->
  result (PodPhaseMatch c obj phase) st = Panicked InterfaceConversion.
Proof.
  intros Ho Hk H.
  rewrite <- (fetched_kind _ _ _ _ _ _ _ Ho H) in Hk.
  unfold PodPhaseMatch, result. poll H st' Ho'.
  unfold bind. rewrite (assert_Pod_after _ _ _ _ Ho').
  now destruct d'.
Qed.

(** C8. The type assertions of JobConditionMatch, PodConditionMatch and
    PodPhaseMatch are not guarded.  When the supplied object is an object of
    the expected kind (the Condition, its accessor and the object being
    non-nil pointers) the predicate returns; when it is of another kind and
    the fetch succeeds, the predicate panics on the assertion and returns
    nothing. *)
Theorem type_assertion_unguarded c obj st cond a d :
  conditions st !! c = Some cond ->
  accessors st !! resources cond = Some a ->
  objects st !! obj = Some d ->
  (k8s.kind d = k8s.KJob ->
   forall conditionType conditionState,
   exists r, result (JobConditionMatch c obj conditionType conditionState) st
             = Returned r) /\
  (k8s.kind d = k8s.KPod ->
   (forall conditionType conditionState,
    exists r, result (PodConditionMatch c obj conditionType conditionState) st
              = Returned r) /\
   (forall phase, exists r, result (PodPhaseMatch c obj phase) st = Returned r)) /\
  (k8s.kind d <> k8s.KJob ->
   forall d' conditionType conditionState,
   fetched c context.TODO obj st = Some (d', None) ->
   result (JobConditionMatch c obj conditionType conditionState) st
   = Panicked InterfaceConversion) /\
  (k8s.kind d <> k8s.KPod ->
   (forall d' conditionType conditionState,
    fetched c context.TODO obj st = Some (d', None) ->
    result (PodConditionMatch c obj conditionType conditionState) st
    = Panicked InterfaceConversion) /\
   (forall d' phase,
    fetched c context.Background obj st = Some (d', None) ->
    result (PodPhaseMatch c obj phase) st = Panicked InterfaceConversion)).
Proof.
  intros Hc Ha Ho. repeat split.
  - intros Hk T S. destruct d; try discriminate Hk.
    eapply JobConditionMatch_returns; eassumption.
  - intros T S. destruct d; try discriminate H.
    eapply PodConditionMatch_returns; eassumption.
  - intros phase. destruct d; try discriminate H.
    eapply PodPhaseMatch_returns; eassumption.
  - intros Hk d' T S H. eapply JobConditionMatch_panics; eassumption.
  - intros d' T S H'. eapply PodConditionMatch_panics; eassumption.
  - intros d' phase H'. eapply PodPhaseMatch_panics; eassumption.
Qed.

(** C9. When the fetch succeeds, JobConditionMatch(job, Complete, True) and
    JobConditionMatch(job, Failed, True) both return done = true from the
    same store exactly when the job's status condition list has both an
    entry (Complete, True) and an entry (Failed, True). *)
Theorem Complete_and_Failed c job st j :
  fetched c context.TODO job st = Some (k8s.JobData j, None) ->
  (result (JobConditionMatch c job batchv1.JobComplete v1.ConditionTrue) st
     = Returned (true, None) /\
   result (JobConditionMatch c job batchv1.JobFailed v1.ConditionTrue) st
     = Returned (true, None))
  <->
  ((exists cond,
       In cond (batchv1.JobStatus_Conditions (batchv1.Job_Status j)) /\
       batchv1.JobCondition_Type cond = "Complete" /\
       batchv1.JobCondition_Status cond = "True") /\
   (exists cond,
       In cond (batchv1.JobStatus_Conditions (batchv1.Job_Status j)) /\
       batchv1.JobCondition_Type cond = "Failed" /\
       batchv1.JobCondition_Status cond = "True")).
Proof.
  intros H.
  rewrite !(JobConditionMatch_run _ _ _ _ _ _ H).
  rewrite <- !range_JobConditions_true.
  split; intros [H1 H2].
  - injection H1 as H1. injection H2 as H2. now split.
  - change "Complete" with batchv1.JobComplete in H1.
    change "Failed" with batchv1.JobFailed in H2.
    change "True" with v1.ConditionTrue in H1, H2.
    now rewrite H1, H2.
Qed.

(** *** The verbose flag *)

Lemma agree_conditions st1 st2 c :
  agree_up_to_logging st1 st2 ->
  resources <$> (conditions st1 !! c) = resources <$> (conditions st2 !! c).
Proof.
  intros (_ & _ & H). rewrite <- !lookup_fmap. now rewrite H.
Qed.

Lemma blind_ret {A} (a : A) : blind_to_logging (ret a).
Proof. intros st1 st2 H. now split. Qed.

Lemma blind_throw {A} (p : panic) : blind_to_logging (throw (A := A) p).
Proof. intros st1 st2 H. now split. Qed.

Lemma blind_bind {A B} (m : M A) (k : A -> M B) :
  blind_to_logging m ->
  (forall a, blind_to_logging (k a)) ->
  blind_to_logging (bind m k).
Proof.
  intros Hm Hk st1 st2 H.
  destruct (Hm st1 st2 H) as [Hr Ha].
  unfold result, after, bind in *.
  destruct (m st1) as [o1 st1'], (m st2) as [o2 st2']. cbn in Hr, Ha.
  subst o2. destruct o1 as [a|p].
  - exact (Hk a st1' st2' Ha).
  - now split.
Qed.

Lemma blind_load_object obj : blind_to_logging (load_object obj).
Proof.
  intros st1 st2 H. unfold result, after, load_object.
  destruct H as (Ho & Ha & Hc). rewrite Ho.
  destruct (objects st2 !! obj); now repeat split.
Qed.

Lemma blind_store_object obj d : blind_to_logging (store_object obj d).
Proof.
  intros st1 st2 (Ho & Ha & Hc). unfold result, after, store_object. cbn.
  repeat split; cbn; congruence.
Qed.

Lemma blind_load_accessor r : blind_to_logging (load_accessor r).
Proof.
  intros st1 st2 H. unfold result, after, load_accessor.
  destruct H as (Ho & Ha & Hc). rewrite Ha.
  destruct (accessors st2 !! r); now repeat split.
Qed.

Lemma blind_GetName obj : blind_to_logging (GetName obj).
Proof.
  apply blind_bind; [apply blind_load_object|intros; apply blind_ret].
Qed.

Lemma blind_GetNamespace obj : blind_to_logging (GetNamespace obj).
Proof.
  apply blind_bind; [apply blind_load_object|intros; apply blind_ret].
Qed.

Lemma blind_Get r ctx name namespace obj :
  blind_to_logging (Get r ctx name namespace obj).
Proof.
  unfold Get.
  apply blind_bind; [apply blind_load_accessor|intros a].
  apply blind_bind; [apply blind_load_object|intros d].
  destruct (decode a ctx name namespace d) as [d' err].
  apply blind_bind; [apply blind_store_object|intros; apply blind_ret].
Qed.

Lemma blind_assert_Job obj : blind_to_logging (assert_Job obj).
Proof.
  apply blind_bind; [apply blind_load_object|intros d].
  destruct d; auto using blind_ret, blind_throw.
Qed.

Lemma blind_assert_Pod obj : blind_to_logging (assert_Pod obj).
Proof.
  apply blind_bind; [apply blind_load_object|intros d].
  destruct d; auto using blind_ret, blind_throw.
Qed.

(** [log] returns nothing that depends on the flag it reads, and writes to
    the sink only. *)
Lemma blind_log c message a : blind_to_logging (log c message a).
Proof.
  intros st1 st2 H. pose proof (agree_conditions _ _ c H) as Hc.
  destruct H as (Ho & Ha & Hcs).
  unfold result, after, log, bind, load_condition, Printf, ret.
  destruct (conditions st1 !! c) as [cond1|], (conditions st2 !! c) as [cond2|];
    try discriminate Hc.
  - destruct (verbose cond1), (verbose cond2); now repeat split.
  - now repeat split.
Qed.

Lemma load_condition_bind {A} c (k : Condition -> M A) st :
  bind (load_condition c) k st
  = match conditions st !! c with
    | Some cond => k cond st
    | None => (Panicked NilPointerDereference, st)
    end.
Proof.
  unfold bind, load_condition. now destruct (conditions st !! c).
Qed.

(** The fetch reads the accessor of the Condition, not its flag. *)
Lemma blind_resources_Get c ctx obj : blind_to_logging (resources_Get c ctx obj).
Proof.
  intros st1 st2 H. pose proof (agree_conditions _ _ c H) as Hc.
  assert (forall r, blind_to_logging
            (name <- GetName obj ;; namespace <- GetNamespace obj ;;
             Get r ctx name namespace obj)) as Hk.
  { intros r.
    apply blind_bind; [apply blind_GetName|intros name].
    apply blind_bind; [apply blind_GetNamespace|intros namespace].
    apply blind_Get. }
  unfold resources_Get, result, after. rewrite !load_condition_bind.
  destruct (conditions st1 !! c) as [cond1|], (conditions st2 !! c) as [cond2|];
    try discriminate Hc.
  - injection Hc as ->. exact (Hk (resources cond2) st1 st2 H).
  - now split.
Qed.

Create HintDb blind.
#[local] Hint Resolve blind_ret blind_throw blind_GetName blind_GetNamespace
  blind_log blind_resources_Get blind_assert_Job blind_assert_Pod
  blind_load_object : blind.

Ltac blind_step :=
  match goal with
  | |- blind_to_logging (bind _ _) => apply blind_bind; [|intros ?]
  | |- blind_to_logging (match ?x with _ => _ end) => destruct x
  | |- blind_to_logging _ => solve [auto with blind]
  end.

Lemma blind_predicate F c obj : blind_to_logging (predicate F c obj).
Proof.
  destruct F; cbn [predicate];
    unfold PodReady, ContainersReady, PodRunning, JobCompleted, JobFailed,
      ResourceScaled, ResourceDeleted, JobConditionMatch, PodConditionMatch,
      PodPhaseMatch;
    repeat blind_step.
Qed.

Lemma WithVerboseLog_run c cond st :
  conditions st !! c = Some cond ->
  WithVerboseLog c st
  = (Returned c,
     {| objects := objects st;
        accessors := accessors st;
        conditions :=
          <[c := {| resources := resources cond; verbose := true |}]>
            (conditions st);
        sink := sink st |}).
Proof.
  intros H. unfold WithVerboseLog, bind, load_condition. now rewrite H.
Qed.

Lemma WithVerboseLog_agree c cond st :
  conditions st !! c = Some cond ->
  agree_up_to_logging (after (WithVerboseLog c) st) st.
Proof.
  intros H. unfold after. rewrite (WithVerboseLog_run _ _ _ H). cbn.
  repeat split. cbn. rewrite fmap_insert. cbn.
  apply insert_id. now rewrite lookup_fmap, H.
Qed.

Lemma silent_bind c {A B} (m : M A) (k : A -> M B) :
  silent_for c m ->
  (forall a, silent_for c (k a)) ->
  silent_for c (bind m k).
Proof.
  intros Hm Hk st cond Hc Hv.
  destruct (Hm st cond Hc Hv) as [Hs Hcs].
  unfold after, bind in *.
  destruct (m st) as [[a|p] st']; cbn in Hs, Hcs; [|now split].
  rewrite <- Hcs in Hc.
  destruct (Hk a st' cond Hc Hv) as [Hs' Hcs']. unfold after in *.
  split; congruence.
Qed.

Lemma silent_ret c {A} (a : A) : silent_for c (ret a).
Proof. now intros st cond _ _. Qed.

Lemma silent_throw c {A} (p : panic) : silent_for c (throw (A := A) p).
Proof. now intros st cond _ _. Qed.

Lemma silent_load_object c obj : silent_for c (load_object obj).
Proof.
  intros st cond _ _. unfold after, load_object.
  now destruct (objects st !! obj).
Qed.

Lemma silent_load_accessor c r : silent_for c (load_accessor r).
Proof.
  intros st cond _ _. unfold after, load_accessor.
  now destruct (accessors st !! r).
Qed.

Lemma silent_load_condition c c' : silent_for c (load_condition c').
Proof.
  intros st cond _ _. unfold after, load_condition.
  now destruct (conditions st !! c').
Qed.

Lemma silent_store_object c obj d : silent_for c (store_object obj d).
Proof. now intros st cond _ _. Qed.

Lemma silent_GetName c obj : silent_for c (GetName obj).
Proof.
  apply silent_bind; [apply silent_load_object|intros; apply silent_ret].
Qed.

Lemma silent_GetNamespace c obj : silent_for c (GetNamespace obj).
Proof.
  apply silent_bind; [apply silent_load_object|intros; apply silent_ret].
Qed.

Lemma silent_assert_Job c obj : silent_for c (assert_Job obj).
Proof.
  apply silent_bind; [apply silent_load_object|intros d].
  destruct d; auto using silent_ret, silent_throw.
Qed.

Lemma silent_assert_Pod c obj : silent_for c (assert_Pod obj).
Proof.
  apply silent_bind; [apply silent_load_object|intros d].
  destruct d; auto using silent_ret, silent_throw.
Qed.

Lemma silent_resources_Get c c' ctx obj : silent_for c (resources_Get c' ctx obj).
Proof.
  unfold resources_Get, Get.
  apply silent_bind; [apply silent_load_condition|intros cond'].
  apply silent_bind; [apply silent_GetName|intros name].
  apply silent_bind; [apply silent_GetNamespace|intros namespace].
  apply silent_bind; [apply silent_load_accessor|intros a].
  apply silent_bind; [apply silent_load_object|intros d].
  destruct (decode a ctx name namespace d) as [d' err].
  apply silent_bind; [apply silent_store_object|intros; apply silent_ret].
Qed.

(** With the flag of [c] cleared, [c.log] writes nothing. *)
Lemma silent_log c message a : silent_for c (log c message a).
Proof.
  intros st cond Hc Hv. unfold after, log, bind, load_condition.
  now rewrite Hc, Hv.
Qed.

#[local] Hint Resolve silent_ret silent_throw silent_GetName silent_GetNamespace
  silent_log silent_resources_Get silent_assert_Job silent_assert_Pod
  silent_load_object : blind.

Ltac silent_step :=
  match goal with
  | |- silent_for _ (bind _ _) => apply silent_bind; [|intros ?]
  | |- silent_for _ (match ?x with _ => _ end) => destruct x
  | |- silent_for _ _ => solve [auto with blind]
  end.

Lemma silent_predicate F c obj : silent_for c (predicate F c obj).
Proof.
  destruct F; cbn [predicate];
    unfold PodReady, ContainersReady, PodRunning, JobCompleted, JobFailed,
      ResourceScaled, ResourceDeleted, JobConditionMatch, PodConditionMatch,
      PodPhaseMatch;
    repeat silent_step.
Qed.

(** C10. The verbose flag does not change what a predicate returns.  For
    every factory, the predicate built from a Condition on which
    WithVerboseLog was called returns the same (done, err), or raises the
    same panic, and leaves the same objects as the predicate built from the
    Condition with the flag cleared; with the flag cleared the predicate
    writes nothing to the log sink. *)
Theorem verbose_only_gates_logging F c obj st cond :
  conditions st !! c = Some cond ->
  verbose cond = false ->
  result (c' <- WithVerboseLog c ;; predicate F c' obj) st
    = result (predicate F c obj) st /\
  objects (after (c' <- WithVerboseLog c ;; predicate F c' obj) st)
    = objects (after (predicate F c obj) st) /\
  sink (after (predicate F c obj) st) = sink st.
Proof.
  intros Hc Hv.
  pose proof (WithVerboseLog_agree _ _ _ Hc) as Hag.
  destruct (blind_predicate F c obj _ _ Hag) as (Hr & Ho & _).
  unfold result, after, bind in *.
  rewrite (WithVerboseLog_run _ _ _ Hc) in *. cbn [fst snd] in *.
  repeat split; [exact Hr|exact Ho|].
  apply (silent_predicate F c obj st cond Hc Hv).
Qed.

(** ** The predicates on a test cluster *)

(** An absent resource, an unreachable server and a resource that still
    exists. *)
Lemma ResourceDeleted_spec_witness :
  result (ResourceDeleted 1 3)
    (store_of (k8s.PodData web_running) (serving []) false)
    = Returned (true, None) /\
  result (ResourceDeleted 1 3)
    (store_of (k8s.PodData web_running) unreachable false)
    = Returned (false, Some connection_refused) /\
  result (ResourceDeleted 1 3)
    (store_of (k8s.PodData web_pending) (serving [k8s.PodData web_running]) false)
    = Returned (false, None).
Proof.
  split; [|split].
  - apply (proj1 (ResourceDeleted_spec 1 3 _ (k8s.PodData web_running))
             (not_found "web")); reflexivity.
  - apply (proj1 (proj2 (ResourceDeleted_spec 1 3 _ (k8s.PodData web_running)))
             connection_refused); reflexivity.
  - apply (proj2 (proj2 (ResourceDeleted_spec 1 3 _ (k8s.PodData web_running))));
      reflexivity.
Defined.

(** A deployment the caller last saw at one replica and the cluster
    reports at three. *)
Lemma ResourceScaled_spec_witness :
  let st := store_of (k8s.DeploymentData (web_deployment 1))
              (serving [k8s.DeploymentData (web_deployment 3)]) false in
  let d' := k8s.DeploymentData (web_deployment 3) in
  fetched 1 context.TODO 3 st = Some (d', None) /\
  (result (ResourceScaled 1 3 status_replicas 3) st = Returned (true, None)
   <-> status_replicas d' = 3) /\
  (status_replicas d' <> 3 ->
   result (ResourceScaled 1 3 status_replicas 3) st = Returned (false, None)).
Proof.
  intros st d'. split; [reflexivity|].
  apply (ResourceScaled_spec 1 3 status_replicas 3 st d'). reflexivity.
Defined.

(** The four predicates against an unreachable server. *)
Lemma fetch_error_policy_witness :
  let st := store_of (k8s.PodData web_pending) unreachable false in
  result (ResourceScaled 1 3 status_replicas 3) st = Returned (false, None) /\
  result (JobConditionMatch 1 3 batchv1.JobComplete v1.ConditionTrue) st
    = Returned (false, Some connection_refused) /\
  result (PodConditionMatch 1 3 v1.PodReady v1.ConditionTrue) st
    = Returned (false, Some connection_refused) /\
  result (PodPhaseMatch 1 3 v1.PodRunning) st
    = Returned (false, Some connection_refused).
Proof.
  intros st.
  destruct (fetch_error_policy 1 3 (k8s.PodData web_pending) connection_refused)
    as (Hscaled & _ & Hjob & Hpod & Hphase).
  split; [|split; [|split]].
  - apply Hscaled. reflexivity.
  - apply Hjob. reflexivity.
  - apply Hpod. reflexivity.
  - apply Hphase. reflexivity.
Defined.

(** A pod that has become ready and a job that has completed. *)
Lemma ConditionMatch_spec_witness :
  (exists done,
      result (PodConditionMatch 1 3 v1.PodReady v1.ConditionTrue)
        (store_of (k8s.PodData web_pending) (serving [k8s.PodData web_running])
           false)
        = Returned (done, None) /\
      (done = true <->
       exists cond,
         In cond (v1.PodStatus_Conditions (v1.Pod_Status web_running)) /\
         v1.PodCondition_Type cond = v1.PodReady /\
         v1.PodCondition_Status cond = v1.ConditionTrue) /\
      (v1.PodStatus_Conditions (v1.Pod_Status web_running) = [] -> done = false)) /\
  (exists done,
      result (JobConditionMatch 1 3 batchv1.JobComplete v1.ConditionTrue)
        (store_of (k8s.JobData backup_job) (serving [k8s.JobData backup_job])
           false)
        = Returned (done, None) /\
      (done = true <->
       exists cond,
         In cond (batchv1.JobStatus_Conditions (batchv1.Job_Status backup_job)) /\
         batchv1.JobCondition_Type cond = batchv1.JobComplete /\
         batchv1.JobCondition_Status cond = v1.ConditionTrue) /\
      (batchv1.JobStatus_Conditions (batchv1.Job_Status backup_job) = [] ->
       done = false)).
Proof.
  split.
  - apply (proj1 (ConditionMatch_spec 1 3 v1.PodReady v1.ConditionTrue _)
             web_running). reflexivity.
  - apply (proj2 (ConditionMatch_spec 1 3 batchv1.JobComplete v1.ConditionTrue _)
             backup_job). reflexivity.
Defined.

(** A pod the caller last saw Pending and the cluster reports Running. *)
Lemma PodPhaseMatch_spec_witness :
  let st := store_of (k8s.PodData web_pending) (serving [k8s.PodData web_running])
              false in
  fetched 1 context.Background 3 st = Some (k8s.PodData web_running, None) /\
  (result (PodPhaseMatch 1 3 v1.PodRunning) st = Returned (true, None)
   <-> v1.PodStatus_Phase (v1.Pod_Status web_running) = v1.PodRunning) /\
  (v1.PodStatus_Phase (v1.Pod_Status web_running) <> v1.PodRunning ->
   result (PodPhaseMatch 1 3 v1.PodRunning) st = Returned (false, None)).
Proof.
  intros st. split; [reflexivity|].
  apply (PodPhaseMatch_spec 1 3 v1.PodRunning st web_running). reflexivity.
Defined.

(** PodRunning against an unreachable server. *)
Lemma error_implies_not_done_witness :
  let st := store_of (k8s.PodData web_pending) unreachable true in
  result (predicate PodRunning_ 1 3) st
    = Returned (false, Some connection_refused) /\
  false = false.
Proof.
  intros st. split; [reflexivity|].
  apply (error_implies_not_done PodRunning_ 1 3 st false connection_refused).
  reflexivity.
Defined.

(** A job and a pod handed to the matching predicates, and a pod and a
    deployment handed to the wrong ones. *)
Lemma type_assertion_unguarded_witness :
  (exists r,
      result (JobConditionMatch 1 3 batchv1.JobComplete v1.ConditionTrue)
        (store_of (k8s.JobData backup_job) (serving [k8s.JobData backup_job]) false)
        = Returned r) /\
  (exists r,
      result (PodPhaseMatch 1 3 v1.PodRunning)
        (store_of (k8s.PodData web_pending) (serving []) false)
        = Returned r) /\
  result (JobConditionMatch 1 3 batchv1.JobComplete v1.ConditionTrue)
    (store_of (k8s.PodData web_pending) (serving [k8s.PodData web_running]) false)
    = Panicked InterfaceConversion /\
  result (PodPhaseMatch 1 3 v1.PodRunning)
    (store_of (k8s.DeploymentData (web_deployment 1))
       (serving [k8s.DeploymentData (web_deployment 3)]) false)
    = Panicked InterfaceConversion.
Proof.
  split; [|split; [|split]].
  - refine (proj1 (type_assertion_unguarded 1 3
                     (store_of (k8s.JobData backup_job)
                        (serving [k8s.JobData backup_job]) false)
                     {| resources := 2; verbose := false |}
                     (serving [k8s.JobData backup_job])
                     (k8s.JobData backup_job) _ _ _) _ _ _); reflexivity.
  - refine (proj2 (proj1 (proj2 (type_assertion_unguarded 1 3
                     (store_of (k8s.PodData web_pending) (serving []) false)
                     {| resources := 2; verbose := false |}
                     (serving [])
                     (k8s.PodData web_pending) _ _ _)) _) _); reflexivity.
  - refine (proj1 (proj2 (proj2 (type_assertion_unguarded 1 3
                     (store_of (k8s.PodData web_pending)
                        (serving [k8s.PodData web_running]) false)
                     {| resources := 2; verbose := false |}
                     (serving [k8s.PodData web_running])
                     (k8s.PodData web_pending) _ _ _))) _
                     (k8s.PodData web_running) _ _ _);
      [reflexivity|reflexivity|reflexivity|discriminate|reflexivity].
  - refine (proj2 (proj2 (proj2 (proj2 (type_assertion_unguarded 1 3
                     (store_of (k8s.DeploymentData (web_deployment 1))
                        (serving [k8s.DeploymentData (web_deployment 3)]) false)
                     {| resources := 2; verbose := false |}
                     (serving [k8s.DeploymentData (web_deployment 3)])
                     (k8s.DeploymentData (web_deployment 1)) _ _ _))) _)
                     (k8s.DeploymentData (web_deployment 3)) _ _);
      [reflexivity|reflexivity|reflexivity|discriminate|reflexivity].
Defined.

(** A job that reports both conditions. *)
Lemma Complete_and_Failed_witness :
  let st := store_of (k8s.JobData backup_job) (serving [k8s.JobData backup_job])
              false in
  fetched 1 context.TODO 3 st = Some (k8s.JobData backup_job, None) /\
  ((result (JobConditionMatch 1 3 batchv1.JobComplete v1.ConditionTrue) st
      = Returned (true, None) /\
    result (JobConditionMatch 1 3 batchv1.JobFailed v1.ConditionTrue) st
      = Returned (true, None))
   <->
   ((exists cond,
        In cond (batchv1.JobStatus_Conditions (batchv1.Job_Status backup_job)) /\
        batchv1.JobCondition_Type cond = "Complete" /\
        batchv1.JobCondition_Status cond = "True") /\
    (exists cond,
        In cond (batchv1.JobStatus_Conditions (batchv1.Job_Status backup_job)) /\
        batchv1.JobCondition_Type cond = "Failed" /\
        batchv1.JobCondition_Status cond = "True"))).
Proof.
  intros st. split; [reflexivity|].
  apply (Complete_and_Failed 1 3 st backup_job). reflexivity.
Defined.

(** PodReady with and without verbose logs. *)
Lemma verbose_only_gates_logging_witness :
  let st := store_of (k8s.PodData web_pending) (serving [k8s.PodData web_running])
              false in
  conditions st !! 1%positive = Some {| resources := 2; verbose := false |} /\
  result (c' <- WithVerboseLog 1 ;; predicate PodReady_ c' 3) st
    = result (predicate PodReady_ 1 3) st /\
  objects (after (c' <- WithVerboseLog 1 ;; predicate PodReady_ c' 3) st)
    = objects (after (predicate PodReady_ 1 3) st) /\
  sink (after (predicate PodReady_ 1 3) st) = sink st.
Proof.
  intros st. split; [reflexivity|].
  apply (verbose_only_gates_logging PodReady_ 1 3 st
           {| resources := 2; verbose := false |}); reflexivity.
Defined.

(** *** Runs

    End-to-end scenarios, run on the test cluster. *)

(** A pod that the cluster reports Pending is not running; once the cluster
    reports it Running, the next poll is done. *)
Example PodRunning_pending_then_running :
  result (PodRunning 1 3)
    (store_of (k8s.PodData web_pending) (serving [k8s.PodData web_pending]) false)
    = Returned (false, None) /\
  result (PodRunning 1 3)
    (store_of (k8s.PodData web_pending) (serving [k8s.PodData web_running]) false)
    = Returned (true, None).
Proof. split; reflexivity. Qed.

(** The fetch writes into the caller's object. *)
Example PodRunning_updates_target :
  objects (after (PodRunning 1 3)
             (store_of (k8s.PodData web_pending)
                (serving [k8s.PodData web_running]) false)) !! 3%positive
  = Some (k8s.PodData web_running).
Proof. reflexivity. Qed.

(** With verbose set, a poll logs one line; without, none. *)
Example PodRunning_logs :
  sink (after (PodRunning 1 3)
          (store_of (k8s.PodData web_pending) (serving []) true))
  = [ {| format := "Checking for Pod %v Condition of %s/%s";
         args := [ArgString "Running"; ArgString "default"; ArgString "web"] |} ]
  /\
  sink (after (PodRunning 1 3)
          (store_of (k8s.PodData web_pending) (serving []) false))
  = [].
Proof. split; reflexivity. Qed.

(** A nil object, a nil Condition and a nil accessor each make the
    predicate panic. *)
Example nil_pointers_panic :
  result (ResourceDeleted 1 4)
    (store_of (k8s.PodData web_pending) (serving []) false)
    = Panicked NilPointerDereference /\
  result (ResourceDeleted 5 3)
    (store_of (k8s.PodData web_pending) (serving []) false)
    = Panicked NilPointerDereference /\
  result (c <- New 6 ;; ResourceDeleted c 3)
    (store_of (k8s.PodData web_pending) (serving []) false)
    = Panicked NilPointerDereference.
Proof. repeat split; reflexivity. Qed.

(** [New] followed by [WithVerboseLog] gives a Condition that logs. *)
Example New_WithVerboseLog :
  let st := store_of (k8s.DeploymentData (web_deployment 1))
              (serving [k8s.DeploymentData (web_deployment 3)]) false in
  let run := c <- New 2 ;; c <- WithVerboseLog c ;;
             ResourceScaled c 3 status_replicas 3 in
  result run st = Returned (true, None) /\
  sink (after run st)
  = [ {| format := "Checking if the resource %s/%s has been scaled to %d";
         args := [ArgString "default"; ArgString "web"; ArgInt32 3] |} ].
Proof. split; reflexivity. Qed.

(** ** Further properties of the package *)

(** *** What a computation leaves alone *)

Lemma preserves_bind {X A B} (proj : State -> X) (m : M A) (k : A -> M B) :
  preserves proj m ->
  (forall a, preserves proj (k a)) ->
  preserves proj (bind m k).
Proof.
  intros Hm Hk st. specialize (Hm st). unfold after, bind in *.
  destruct (m st) as [[a|p] st']; cbn in Hm; [|exact Hm].
  rewrite <- Hm. apply (Hk a st').
Qed.

Lemma preserves_ret {X A} (proj : State -> X) (a : A) : preserves proj (ret a).
Proof. now intros st. Qed.

Lemma preserves_throw {X A} (proj : State -> X) (p : panic) :
  preserves proj (throw (A := A) p).
Proof. now intros st. Qed.

Lemma preserves_load_object {X} (proj : State -> X) obj :
  preserves proj (load_object obj).
Proof.
  intros st. unfold after, load_object. now destruct (objects st !! obj).
Qed.

Lemma preserves_load_accessor {X} (proj : State -> X) r :
  preserves proj (load_accessor r).
Proof.
  intros st. unfold after, load_accessor. now destruct (accessors st !! r).
Qed.

Lemma preserves_load_condition {X} (proj : State -> X) c :
  preserves proj (load_condition c).
Proof.
  intros st. unfold after, load_condition. now destruct (conditions st !! c).
Qed.

Lemma preserves_GetName {X} (proj : State -> X) obj :
  preserves proj (GetName obj).
Proof.
  apply preserves_bind; [apply preserves_load_object|intros; apply preserves_ret].
Qed.

Lemma preserves_GetNamespace {X} (proj : State -> X) obj :
  preserves proj (GetNamespace obj).
Proof.
  apply preserves_bind; [apply preserves_load_object|intros; apply preserves_ret].
Qed.

Lemma preserves_assert_Job {X} (proj : State -> X) obj :
  preserves proj (assert_Job obj).
Proof.
  apply preserves_bind; [apply preserves_load_object|intros d].
  destruct d; auto using preserves_ret, preserves_throw.
Qed.

Lemma preserves_assert_Pod {X} (proj : State -> X) obj :
  preserves proj (assert_Pod obj).
Proof.
  apply preserves_bind; [apply preserves_load_object|intros d].
  destruct d; auto using preserves_ret, preserves_throw.
Qed.

(** The fetch writes to the target only. *)
Lemma preserves_resources_Get {X} (proj : State -> X) c ctx obj :
  (forall d, preserves proj (store_object obj d)) ->
  preserves proj (resources_Get c ctx obj).
Proof.
  intros Hstore. unfold resources_Get, Get.
  apply preserves_bind; [apply preserves_load_condition|intros cond].
  apply preserves_bind; [apply preserves_GetName|intros name].
  apply preserves_bind; [apply preserves_GetNamespace|intros namespace].
  apply preserves_bind; [apply preserves_load_accessor|intros a].
  apply preserves_bind; [apply preserves_load_object|intros d].
  destruct (decode a ctx name namespace d) as [d' err].
  apply preserves_bind; [apply Hstore|intros; apply preserves_ret].
Qed.

(** [log] writes to the sink only. *)
Lemma preserves_log {X} (proj : State -> X) c message a :
  preserves proj (Printf message a) ->
  preserves proj (log c message a).
Proof.
  intros Hprint. unfold log.
  apply preserves_bind; [apply preserves_load_condition|intros cond].
  destruct (verbose cond); [exact Hprint|apply preserves_ret].
Qed.

Lemma store_object_frame obj d : preserves (frame_of obj) (store_object obj d).
Proof.
  intros st. unfold after, store_object, frame_of. cbn.
  now rewrite delete_insert_eq.
Qed.

Lemma Printf_frame obj message a : preserves (frame_of obj) (Printf message a).
Proof. now intros st. Qed.

Lemma store_object_sink obj d : preserves sink (store_object obj d).
Proof. now intros st. Qed.

#[local] Hint Resolve preserves_ret preserves_throw preserves_load_object
  preserves_GetName preserves_GetNamespace preserves_assert_Job
  preserves_assert_Pod preserves_resources_Get preserves_log
  store_object_frame Printf_frame store_object_sink : blind.

Ltac preserves_step :=
  match goal with
  | |- preserves _ (bind _ _) => apply preserves_bind; [|intros ?]
  | |- preserves _ (match ?x with _ => _ end) => destruct x
  | |- preserves _ _ => solve [auto with blind]
  end.

Ltac unfold_predicate :=
  cbn [predicate];
  unfold PodReady, ContainersReady, PodRunning, JobCompleted, JobFailed,
    ResourceScaled, ResourceDeleted, JobConditionMatch, PodConditionMatch,
    PodPhaseMatch.

Ltac unfold_predicate_in H :=
  cbn [predicate] in H;
  unfold PodReady, ContainersReady, PodRunning, JobCompleted, JobFailed,
    ResourceScaled, ResourceDeleted, JobConditionMatch, PodConditionMatch,
    PodPhaseMatch in H.

(** X1. A poll touches nothing but its target and the log: whatever the
    store, and whether the predicate returns or panics, the accessors, the
    Conditions and every object other than the target are left as they
    were. *)
Theorem poll_frame F c obj st :
  accessors (after (predicate F c obj) st) = accessors st /\
  conditions (after (predicate F c obj) st) = conditions st /\
  forall obj' : positive,
    obj' <> obj ->
    objects (after (predicate F c obj) st) !! obj' = objects st !! obj'.
Proof.
  assert (preserves (frame_of obj) (predicate F c obj)) as H.
  { destruct F; unfold_predicate; repeat preserves_step. }
  specialize (H st). unfold frame_of in H.
  injection H as Ha Hc Ho.
  repeat split; [exact Ha|exact Hc|].
  intros obj' Hne.
  rewrite <- (lookup_delete_ne (objects (after (predicate F c obj) st)) obj obj')
    by congruence.
  rewrite Ho. apply lookup_delete_ne. congruence.
Qed.

(** *** What a poll writes *)

Lemma poll_after {A} c ctx obj message mkargs (k : option error -> M A) st d' e :
  fetched c ctx obj st = Some (d', e) ->
  (forall err, preserves objects (k err)) ->
  objects (after (namespace <- GetNamespace obj ;;
                  name <- GetName obj ;;
                  log c message (mkargs namespace name) ;;
                  err <- resources_Get c ctx obj ;;
                  k err) st)
  = <[obj := d']> (objects st).
Proof.
  intros H Hk.
  destruct (poll_run c ctx obj message mkargs k st d' e H) as (st' & E & Ho & _).
  unfold after. rewrite E. rewrite <- Ho. apply (Hk e st').
Qed.

(** X2. Each poll stores the fetched state in the caller's object.  For
    every factory, when the Condition, its accessor and the target are not
    nil, the target holds after the poll what the accessor decoded into it,
    whether the poll reports done, not done or an error, and also when it
    panics on the type assertion. *)
Theorem poll_writes_target F c obj st d' e :
  fetched c (context_of F) obj st = Some (d', e) ->
  objects (after (predicate F c obj) st) = <[obj := d']> (objects st).
Proof.
  intros H.
  destruct F; unfold_predicate; cbn [context_of] in H;
    (eapply poll_after; [exact H|intros err; repeat preserves_step]).
Qed.

(** *** What a poll logs *)

Lemma poll_logs {A} c ctx obj message mkargs (k : option error -> M A)
    st cond d :
  conditions st !! c = Some cond ->
  verbose cond = true ->
  objects st !! obj = Some d ->
  (forall err, preserves sink (k err)) ->
  sink (after (namespace <- GetNamespace obj ;;
               name <- GetName obj ;;
               log c message (mkargs namespace name) ;;
               err <- resources_Get c ctx obj ;;
               k err) st)
  = (sink st ++
     [ {| format := message;
          args := mkargs (metav1.Namespace (k8s.meta d))
                    (metav1.Name (k8s.meta d)) |} ])%list.
Proof.
  intros Hc Hv Ho Hk.
  assert (preserves sink (err <- resources_Get c ctx obj ;; k err)) as Hrest.
  { apply preserves_bind; [|exact Hk].
    apply preserves_resources_Get. apply store_object_sink. }
  unfold after.
  unfold bind at 1. rewrite (GetNamespace_run _ _ _ Ho).
  unfold bind at 1. rewrite (GetName_run _ _ _ Ho).
  unfold bind at 1. unfold log at 1. rewrite load_condition_bind, Hc, Hv.
  unfold Printf at 1.
  match goal with
  | |- sink (snd (?rest ?st1)) = _ => exact (Hrest st1)
  end.
Qed.

(** X3. With verbose set, a poll of a non-nil object writes exactly one line
    to the log, after the lines already there; it does so before the fetch,
    so also when the fetch then fails or the predicate panics, and the line
    carries the namespace and the name the object had before the fetch. *)
Theorem verbose_logs_one_line F c obj st cond d :
  conditions st !! c = Some cond ->
  verbose cond = true ->
  objects st !! obj = Some d ->
  exists entry,
    sink (after (predicate F c obj) st) = (sink st ++ [entry])%list /\
    In (ArgString (metav1.Namespace (k8s.meta d))) (args entry) /\
    In (ArgString (metav1.Name (k8s.meta d))) (args entry).
Proof.
  intros Hc Hv Ho.
  destruct F; unfold_predicate;
    (eexists; split;
     [eapply poll_logs; [exact Hc|exact Hv|exact Ho|
                         intros err; repeat preserves_step]
     |cbn; intuition]).
Qed.

(** *** Nil pointers *)

Lemma poll_nil {A} c ctx obj message mkargs (k : option error -> M A) st :
  objects st !! obj = None \/ conditions st !! c = None ->
  (namespace <- GetNamespace obj ;;
   name <- GetName obj ;;
   log c message (mkargs namespace name) ;;
   err <- resources_Get c ctx obj ;;
   k err) st
  = (Panicked NilPointerDereference, st).
Proof.
  intros H. destruct (objects st !! obj) as [d|] eqn:Ho.
  - destruct H as [H|Hc]; [discriminate H|].
    unfold bind at 1. rewrite (GetNamespace_run _ _ _ Ho).
    unfold bind at 1. rewrite (GetName_run _ _ _ Ho).
    unfold bind at 1. unfold log at 1. now rewrite load_condition_bind, Hc.
  - unfold bind at 1. unfold GetNamespace, bind, load_object. now rewrite Ho.
Qed.

(** X4. A predicate built on a nil object or from a nil Condition panics
    with a nil dereference when polled, for every factory; it panics before
    it logs or fetches, so the store is left as it was. *)
Theorem nil_pointer_panics F c obj st :
  objects st !! obj = None \/ conditions st !! c = None ->
  predicate F c obj st = (Panicked NilPointerDereference, st).
Proof.
  intros H.
  destruct F; unfold_predicate; (eapply poll_nil; exact H).
Qed.

(** *** New and WithVerboseLog *)

Lemma New_run r st :
  New r st
  = (Returned (fresh_condition st),
     {| objects := objects st;
        accessors := accessors st;
        conditions :=
          <[fresh_condition st := {| resources := r; verbose := false |}]>
            (conditions st);
        sink := sink st |}).
Proof. reflexivity. Qed.

(** X5. A Condition that comes from New is not verbose: a predicate of any
    factory built from it writes nothing to the log. *)
Theorem New_is_silent F r obj st :
  sink (after (c <- New r ;; predicate F c obj) st) = sink st.
Proof.
  unfold after, bind. rewrite New_run.
  match goal with
  | |- sink (snd (predicate F ?c obj ?st0)) = _ =>
      destruct (silent_predicate F c obj st0
                  {| resources := r; verbose := false |}) as [Hs _];
      [apply lookup_insert_eq|reflexivity|exact Hs]
  end.
Qed.

(** X6. WithVerboseLog is idempotent: calling it on the Condition it
    returned gives the same Condition and the same store as calling it once
    (and the same panic on a nil Condition). *)
Theorem WithVerboseLog_idempotent c st :
  (c' <- WithVerboseLog c ;; WithVerboseLog c') st = WithVerboseLog c st.
Proof.
  destruct (conditions st !! c) as [cond|] eqn:Hc.
  - unfold bind at 1. rewrite (WithVerboseLog_run _ _ _ Hc).
    erewrite WithVerboseLog_run by apply lookup_insert_eq.
    cbn. now rewrite insert_insert_eq.
  - unfold bind at 1. unfold WithVerboseLog.
    now rewrite !load_condition_bind, Hc.
Qed.

(** *** The order of the conditions *)

Lemma existsb_Permutation {A} (f : A -> bool) (l l' : list A) :
  Permutation l l' -> existsb f l = existsb f l'.
Proof.
  induction 1 as [|x l l' _ IH|x y l|l l' l'' _ IH1 _ IH2]; cbn.
  - reflexivity.
  - now rewrite IH.
  - now destruct (f x), (f y).
  - congruence.
Qed.

(** X7. The match of PodConditionMatch and of JobConditionMatch does not
    depend on the order of the entries: two successful fetches whose status
    condition lists are permutations of each other give the same result. *)
Theorem ConditionMatch_order_irrelevant c obj conditionType conditionState st st' :
  (forall p p',
      fetched c context.TODO obj st = Some (k8s.PodData p, None) ->
      fetched c context.TODO obj st' = Some (k8s.PodData p', None) ->
      Permutation (v1.PodStatus_Conditions (v1.Pod_Status p))
        (v1.PodStatus_Conditions (v1.Pod_Status p')) ->
      result (PodConditionMatch c obj conditionType conditionState) st
      = result (PodConditionMatch c obj conditionType conditionState) st') /\
  (forall j j',
      fetched c context.TODO obj st = Some (k8s.JobData j, None) ->
      fetched c context.TODO obj st' = Some (k8s.JobData j', None) ->
      Permutation (batchv1.JobStatus_Conditions (batchv1.Job_Status j))
        (batchv1.JobStatus_Conditions (batchv1.Job_Status j')) ->
      result (JobConditionMatch c obj conditionType conditionState) st
      = result (JobConditionMatch c obj conditionType conditionState) st').
Proof.
  split.
  - intros p p' H H' Hperm.
    rewrite (PodConditionMatch_run _ _ _ _ _ _ H),
      (PodConditionMatch_run _ _ _ _ _ _ H').
    unfold range_PodConditions.
    rewrite !(fold_set_done
                (fun cond =>
                   String.eqb (v1.PodCondition_Type cond) conditionType
                   && String.eqb (v1.PodCondition_Status cond) conditionState)).
    now rewrite (existsb_Permutation _ _ _ Hperm).
  - intros j j' H H' Hperm.
    rewrite (JobConditionMatch_run _ _ _ _ _ _ H),
      (JobConditionMatch_run _ _ _ _ _ _ H').
    unfold range_JobConditions.
    rewrite !(fold_set_done
                (fun cond =>
                   String.eqb (batchv1.JobCondition_Type cond) conditionType
                   && String.eqb (batchv1.JobCondition_Status cond) conditionState)).
    now rewrite (existsb_Permutation _ _ _ Hperm).
Qed.

(** *** Predicates keep no state *)

Lemma poll_result {A} c ctx obj message mkargs (k : option error -> M A)
    (verdict : Outcome A) st d' e :
  fetched c ctx obj st = Some (d', e) ->
  (forall st', objects st' !! obj = Some d' -> result (k e) st' = verdict) ->
  result (namespace <- GetNamespace obj ;;
          name <- GetName obj ;;
          log c message (mkargs namespace name) ;;
          err <- resources_Get c ctx obj ;;
          k err) st
  = verdict.
Proof.
  intros H Hk.
  destruct (poll_run c ctx obj message mkargs k st d' e H) as (st' & E & Ho & _).
  unfold result at 1. rewrite E. apply Hk. now rewrite Ho, lookup_insert_eq.
Qed.

Lemma load_object_run obj d st :
  objects st !! obj = Some d -> load_object obj st = (Returned d, st).
Proof. intros H. unfold load_object. now rewrite H. Qed.

(** X8. A predicate keeps no state of its own: what a poll returns, or the
    panic it raises, is decided by what its fetch returns.  Two polls of
    the same factory whose fetches decode the same object and return the
    same error give the same result, whatever else the stores hold and
    whichever Condition, accessor and target are used. *)
Theorem result_decided_by_fetch F c obj st c2 obj2 st2 d' e :
  fetched c (context_of F) obj st = Some (d', e) ->
  fetched c2 (context_of F) obj2 st2 = Some (d', e) ->
  result (predicate F c obj) st = result (predicate F c2 obj2) st2.
Proof.
  intros H H2.
  destruct F; unfold_predicate; cbn [context_of] in H, H2;
    (eapply poll_result; [exact H|]; intros st' Ho;
     symmetry; eapply poll_result; [exact H2|]; intros st2' Ho2;
     destruct e as [err|];
     [try destruct (errors.IsNotFound err); reflexivity|];
     unfold result, assert_Job, assert_Pod, bind;
     rewrite ?(load_object_run _ _ _ Ho), ?(load_object_run _ _ _ Ho2);
     try destruct d'; reflexivity).
Qed.

(** *** Done is not reported without evidence *)

Lemma GetNamespace_Returned obj st namespace st' :
  GetNamespace obj st = (Returned namespace, st') ->
  st' = st /\ is_Some (objects st !! obj).
Proof.
  unfold GetNamespace, bind, load_object, ret.
  destruct (objects st !! obj) as [d|]; [|discriminate].
  intros [= _ <-]. eauto.
Qed.

Lemma GetName_Returned obj st name st' :
  GetName obj st = (Returned name, st') ->
  st' = st /\ is_Some (objects st !! obj).
Proof.
  unfold GetName, bind, load_object, ret.
  destruct (objects st !! obj) as [d|]; [|discriminate].
  intros [= _ <-]. eauto.
Qed.

Lemma log_Returned c message a st u st' :
  log c message a st = (Returned u, st') ->
  objects st' = objects st /\
  accessors st' = accessors st /\
  conditions st' = conditions st.
Proof.
  unfold log. rewrite load_condition_bind.
  destruct (conditions st !! c) as [cond|] eqn:Hc; [|discriminate].
  destruct (verbose cond); cbn; now intros [= _ <-].
Qed.

Lemma resources_Get_Returned c ctx obj st e st' :
  resources_Get c ctx obj st = (Returned e, st') ->
  exists d',
    fetched c ctx obj st = Some (d', e) /\
    objects st' = <[obj := d']> (objects st).
Proof.
  intros H.
  destruct (fetched c ctx obj st) as [[d' e0]|] eqn:Hf.
  - destruct (resources_Get_run _ _ _ _ _ _ Hf) as (st0 & E & Ho & _).
    rewrite E in H. injection H as <- <-. eauto.
  - exfalso. revert H Hf. unfold resources_Get, fetched.
    rewrite load_condition_bind.
    destruct (conditions st !! c) as [cond|]; [|discriminate].
    destruct (objects st !! obj) as [d|] eqn:Ho.
    + unfold bind at 1. rewrite (GetName_run _ _ _ Ho).
      unfold bind at 1. rewrite (GetNamespace_run _ _ _ Ho).
      unfold Get, bind, load_accessor.
      destruct (accessors st !! resources cond); discriminate.
    + unfold GetName, bind, load_object. rewrite Ho. discriminate.
Qed.

Lemma poll_Returned {A} c ctx obj message mkargs (k : option error -> M A)
    st (b : A) st'' :
  (namespace <- GetNamespace obj ;;
   name <- GetName obj ;;
   log c message (mkargs namespace name) ;;
   err <- resources_Get c ctx obj ;;
   k err) st = (Returned b, st'') ->
  exists d' e st',
    fetched c ctx obj st = Some (d', e) /\
    objects st' !! obj = Some d' /\
    k e st' = (Returned b, st'').
Proof.
  intros H. unbind H.
  apply GetNamespace_Returned in E as [-> _].
  apply GetName_Returned in E0 as [-> _].
  apply log_Returned in E1 as (Ho & Ha & Hc).
  apply resources_Get_Returned in E2 as (d' & Hf & Ho').
  rewrite (fetched_ext _ _ _ _ _ Ho Ha Hc) in Hf.
  exists d', a2, st3. repeat split; [exact Hf| |exact H].
  now rewrite Ho', lookup_insert_eq.
Qed.

(** X9. No predicate reports done without evidence from the API.  From any
    store, a predicate that returns done = true has completed its fetch
    (so no pointer was nil), and the fetch succeeded; for ResourceDeleted
    it is the other way round: the fetch failed with a not-found error. *)
Theorem done_needs_evidence F c obj st e :
  result (predicate F c obj) st = Returned (true, e) ->
  exists d' fe,
    fetched c (context_of F) obj st = Some (d', fe) /\
    match F with
    | ResourceDeleted_ =>
        exists err, fe = Some err /\ errors.IsNotFound err = true
    | _ => fe = None
    end.
Proof.
  intros H. apply result_Returned in H as [st'' H].
  destruct F; unfold_predicate; unfold_predicate_in H;
    apply poll_Returned in H as (d' & fe & st' & Hf & Ho & Hk);
    exists d', fe; (split; [exact Hf|]);
    destruct fe as [err|]; try reflexivity; try discriminate Hk.
  - destruct (errors.IsNotFound err) eqn:Hnf; [eauto|discriminate Hk].
Qed.

(** *** Where a conversion panic can come from *)

Lemma bind_Panicked {A B} (m : M A) (k : A -> M B) st p st'' :
  bind m k st = (Panicked p, st'') ->
  m st = (Panicked p, st'') \/
  exists a st', m st = (Returned a, st') /\ k a st' = (Panicked p, st'').
Proof.
  unfold bind. destruct (m st) as [[a|q] st']; [eauto|].
  intros [= <- <-]. now left.
Qed.

Lemma load_object_Panicked obj st p st' :
  load_object obj st = (Panicked p, st') -> p = NilPointerDereference.
Proof.
  unfold load_object. destruct (objects st !! obj); [discriminate|].
  now intros [= <- _].
Qed.

Lemma GetNamespace_Panicked obj st p st' :
  GetNamespace obj st = (Panicked p, st') -> p = NilPointerDereference.
Proof.
  intros H. apply bind_Panicked in H as [H|(d & st1 & _ & H)].
  - exact (load_object_Panicked _ _ _ _ H).
  - discriminate H.
Qed.

Lemma GetName_Panicked obj st p st' :
  GetName obj st = (Panicked p, st') -> p = NilPointerDereference.
Proof.
  intros H. apply bind_Panicked in H as [H|(d & st1 & _ & H)].
  - exact (load_object_Panicked _ _ _ _ H).
  - discriminate H.
Qed.

Lemma log_Panicked c message a st p st' :
  log c message a st = (Panicked p, st') -> p = NilPointerDereference.
Proof.
  unfold log. rewrite load_condition_bind.
  destruct (conditions st !! c) as [cond|].
  - destruct (verbose cond); discriminate.
  - now intros [= <- _].
Qed.

Lemma resources_Get_Panicked c ctx obj st p st' :
  resources_Get c ctx obj st = (Panicked p, st') -> p = NilPointerDereference.
Proof.
  unfold resources_Get. rewrite load_condition_bind.
  destruct (conditions st !! c) as [cond|]; [|now intros [= <- _]].
  intros H.
  apply bind_Panicked in H as [H|(name & st1 & _ & H)];
    [exact (GetName_Panicked _ _ _ _ H)|].
  apply bind_Panicked in H as [H|(namespace & st2 & _ & H)];
    [exact (GetNamespace_Panicked _ _ _ _ H)|].
  unfold Get in H.
  apply bind_Panicked in H as [H|(a & st3 & _ & H)].
  { unfold load_accessor in H.
    destruct (accessors st2 !! resources cond); [discriminate|].
    now injection H as <- _. }
  apply bind_Panicked in H as [H|(d & st4 & _ & H)];
    [exact (load_object_Panicked _ _ _ _ H)|].
  destruct (decode a ctx name namespace d) as [d' err]. discriminate H.
Qed.

Lemma poll_Panicked {A} c ctx obj message mkargs (k : option error -> M A)
    st p st'' :
  (namespace <- GetNamespace obj ;;
   name <- GetName obj ;;
   log c message (mkargs namespace name) ;;
   err <- resources_Get c ctx obj ;;
   k err) st = (Panicked p, st'') ->
  p = NilPointerDereference \/
  exists d' e st',
    fetched c ctx obj st = Some (d', e) /\
    objects st' !! obj = Some d' /\
    k e st' = (Panicked p, st'').
Proof.
  intros H.
  apply bind_Panicked in H as [H|(namespace & st1 & E1 & H)];
    [left; exact (GetNamespace_Panicked _ _ _ _ H)|].
  apply bind_Panicked in H as [H|(name & st2 & E2 & H)];
    [left; exact (GetName_Panicked _ _ _ _ H)|].
  apply bind_Panicked in H as [H|(u & st3 & E3 & H)];
    [left; exact (log_Panicked _ _ _ _ _ _ H)|].
  apply bind_Panicked in H as [H|(e & st4 & E4 & H)];
    [left; exact (resources_Get_Panicked _ _ _ _ _ _ H)|].
  right.
  apply GetNamespace_Returned in E1 as [-> _].
  apply GetName_Returned in E2 as [-> _].
  apply log_Returned in E3 as (Ho & Ha & Hc).
  apply resources_Get_Returned in E4 as (d' & Hf & Ho').
  rewrite (fetched_ext _ _ _ _ _ Ho Ha Hc) in Hf.
  exists d', e, st4. repeat split; [exact Hf| |exact H].
  now rewrite Ho', lookup_insert_eq.
Qed.

Lemma assert_Job_Panicked obj d' st p st' :
  objects st !! obj = Some d' ->
  assert_Job obj st = (Panicked p, st') ->
  k8s.kind d' <> k8s.KJob.
Proof.
  intros Ho. unfold assert_Job, bind. rewrite (load_object_run _ _ _ Ho).
  destruct d'; discriminate.
Qed.

Lemma assert_Pod_Panicked obj d' st p st' :
  objects st !! obj = Some d' ->
  assert_Pod obj st = (Panicked p, st') ->
  k8s.kind d' <> k8s.KPod.
Proof.
  intros Ho. unfold assert_Pod, bind. rewrite (load_object_run _ _ _ Ho).
  destruct d'; discriminate.
Qed.

(** X10. A conversion panic has one cause.  From any store, a predicate
    that panics on an interface conversion has fetched successfully an
    object that is not of the kind it asserts: not a Job for the Job
    predicates, not a Pod for the Pod predicates.  ResourceDeleted never
    panics so.  A fetch error, and every nil pointer, gives another
    outcome. *)
Theorem conversion_panic_cause F c obj st :
  result (predicate F c obj) st = Panicked InterfaceConversion ->
  exists d',
    fetched c (context_of F) obj st = Some (d', None) /\
    match F with
    | ResourceScaled_ _ _ => True
    | ResourceDeleted_ => False
    | JobConditionMatch_ _ _ | JobCompleted_ | JobFailed_ =>
        k8s.kind d' <> k8s.KJob
    | PodConditionMatch_ _ _ | PodPhaseMatch_ _
    | PodReady_ | ContainersReady_ | PodRunning_ =>
        k8s.kind d' <> k8s.KPod
    end.
Proof.
  unfold result. intros H.
  destruct (predicate F c obj st) as [o st''] eqn:E. cbn in H. subst o.
  destruct F; unfold_predicate_in E;
    apply poll_Panicked in E as [E|(d' & fe & st' & Hf & Ho & Hk)];
    try discriminate E;
    (destruct fe as [err|];
     [try destruct (errors.IsNotFound err); discriminate Hk|]);
    try discriminate Hk;
    apply bind_Panicked in Hk as [Hk|(x & st1 & _ & Hk)];
    try discriminate Hk;
    exists d'; (split; [exact Hf|]);
    first [exact (assert_Job_Panicked _ _ _ _ _ Ho Hk)
          |exact (assert_Pod_Panicked _ _ _ _ _ Ho Hk)
          |exact I
          |exfalso; apply load_object_Panicked in Hk; discriminate Hk].
Qed.

(** *** The builder chain *)

Lemma New_WithVerboseLog_run r st :
  (c <- New r ;; WithVerboseLog c) st
  = (Returned (fresh_condition st),
     {| objects := objects st;
        accessors := accessors st;
        conditions :=
          <[fresh_condition st := {| resources := r; verbose := true |}]>
            (conditions st);
        sink := sink st |}).
Proof.
  unfold bind at 1. rewrite New_run.
  erewrite WithVerboseLog_run by apply lookup_insert_eq.
  cbn. now rewrite insert_insert_eq.
Qed.

(** X11. New followed by WithVerboseLog gives a Condition whose predicates
    log: a poll of a non-nil object by a predicate of any factory built
    from it writes exactly one line to the log. *)
Theorem New_WithVerboseLog_logs F r obj st d :
  objects st !! obj = Some d ->
  exists entry,
    sink (after (c <- (c <- New r ;; WithVerboseLog c) ;; predicate F c obj) st)
    = (sink st ++ [entry])%list.
Proof.
  intros Ho. unfold after at 1. unfold bind at 1.
  rewrite New_WithVerboseLog_run.
  set (c := fresh_condition st).
  set (st0 := {| objects := objects st;
                 accessors := accessors st;
                 conditions :=
                   <[c := {| resources := r; verbose := true |}]> (conditions st);
                 sink := sink st |}).
  change (sink st) with (sink st0).
  change (exists entry,
             sink (after (predicate F c obj) st0) = (sink st0 ++ [entry])%list).
  assert (conditions st0 !! c = Some {| resources := r; verbose := true |}) as Hc
    by apply lookup_insert_eq.
  destruct F; unfold_predicate;
    (eexists; eapply poll_logs;
     [exact Hc|reflexivity|exact Ho|intros err; repeat preserves_step]).
Qed.

(** X12. WithVerboseLog turns on the logs of the Condition it is called on
    and of no other: after WithVerboseLog on [c], a predicate built from
    another Condition whose flag is cleared still writes nothing to the
    log. *)
Theorem WithVerboseLog_other_Condition F c c2 cond2 obj st :
  c <> c2 ->
  conditions st !! c2 = Some cond2 ->
  verbose cond2 = false ->
  sink (after (WithVerboseLog c ;; predicate F c2 obj) st) = sink st.
Proof.
  intros Hne Hc2 Hv. unfold after, bind.
  destruct (conditions st !! c) as [cond|] eqn:Hc.
  - rewrite (WithVerboseLog_run _ _ _ Hc).
    match goal with
    | |- sink (snd (predicate F c2 obj ?st0)) = _ =>
        destruct (silent_predicate F c2 obj st0 cond2) as [Hs _];
        [cbn; now rewrite lookup_insert_ne|exact Hv|exact Hs]
    end.
  - unfold WithVerboseLog. now rewrite load_condition_bind, Hc.
Qed.

(** *** The further properties on the test cluster *)

(** A pod the caller last saw Pending, polled for readiness by a predicate
    for jobs: the poll panics, and the caller's object is up to date. *)
Lemma poll_writes_target_witness :
  let st := store_of (k8s.PodData web_pending) (serving [k8s.PodData web_running])
              false in
  fetched 1 (context_of JobCompleted_) 3 st
    = Some (k8s.PodData web_running, None) /\
  objects (after (predicate JobCompleted_ 1 3) st)
    = <[3%positive := k8s.PodData web_running]> (objects st).
Proof.
  intros st. split; [reflexivity|].
  apply (poll_writes_target JobCompleted_ 1 3 st (k8s.PodData web_running) None).
  reflexivity.
Defined.

(** A verbose poll against an unreachable server. *)
Lemma verbose_logs_one_line_witness :
  let st := store_of (k8s.PodData web_pending) unreachable true in
  conditions st !! 1%positive = Some {| resources := 2; verbose := true |} /\
  exists entry,
    sink (after (predicate ResourceDeleted_ 1 3) st) = (sink st ++ [entry])%list /\
    In (ArgString "default") (args entry) /\
    In (ArgString "web") (args entry).
Proof.
  intros st. split; [reflexivity|].
  apply (verbose_logs_one_line ResourceDeleted_ 1 3 st
           {| resources := 2; verbose := true |} (k8s.PodData web_pending));
    reflexivity.
Defined.

(** A poll of an object that was never allocated. *)
Lemma nil_pointer_panics_witness :
  let st := store_of (k8s.PodData web_pending) (serving []) true in
  objects st !! 4%positive = None /\
  predicate PodReady_ 1 4 st = (Panicked NilPointerDereference, st).
Proof.
  intros st. split; [reflexivity|].
  apply (nil_pointer_panics PodReady_ 1 4 st). left. reflexivity.
Defined.

(** The job with its two conditions in either order. *)
Lemma ConditionMatch_order_irrelevant_witness :
  let j' :=
    {| batchv1.Job_ObjectMeta := batchv1.Job_ObjectMeta backup_job;
       batchv1.Job_Status :=
         {| batchv1.JobStatus_Conditions :=
              rev (batchv1.JobStatus_Conditions (batchv1.Job_Status backup_job));
            batchv1.JobStatus_Succeeded := 1;
            batchv1.JobStatus_Failed := 3 |} |} in
  let st := store_of (k8s.JobData backup_job) (serving [k8s.JobData backup_job])
              false in
  let st' := store_of (k8s.JobData backup_job) (serving [k8s.JobData j']) false in
  result (JobConditionMatch 1 3 batchv1.JobComplete v1.ConditionTrue) st
  = result (JobConditionMatch 1 3 batchv1.JobComplete v1.ConditionTrue) st'.
Proof.
  intros j' st st'.
  apply (proj2 (ConditionMatch_order_irrelevant 1 3 batchv1.JobComplete
                  v1.ConditionTrue st st') backup_job j');
    [reflexivity|reflexivity|apply Permutation_rev].
Defined.

(** The same answer of the cluster, reached from two different stores:
    one verbose and with a stale object, one quiet and up to date. *)
Lemma result_decided_by_fetch_witness :
  let st := store_of (k8s.PodData web_pending) (serving [k8s.PodData web_running])
              true in
  let st2 := store_of (k8s.PodData web_running) (serving [k8s.PodData web_running])
               false in
  fetched 1 (context_of PodRunning_) 3 st = Some (k8s.PodData web_running, None) /\
  result (predicate PodRunning_ 1 3) st = result (predicate PodRunning_ 1 3) st2.
Proof.
  intros st st2. split; [reflexivity|].
  apply (result_decided_by_fetch PodRunning_ 1 3 st 1 3 st2
           (k8s.PodData web_running) None); reflexivity.
Defined.

(** A resource that is gone, and a pod that runs. *)
Lemma done_needs_evidence_witness :
  (exists d' fe,
      fetched 1 context.Background 3
        (store_of (k8s.PodData web_running) (serving []) false) = Some (d', fe) /\
      exists err, fe = Some err /\ errors.IsNotFound err = true) /\
  (exists d' fe,
      fetched 1 context.Background 3
        (store_of (k8s.PodData web_pending) (serving [k8s.PodData web_running])
           false) = Some (d', fe) /\
      fe = None).
Proof.
  split.
  - apply (done_needs_evidence ResourceDeleted_ 1 3
             (store_of (k8s.PodData web_running) (serving []) false) None).
    reflexivity.
  - apply (done_needs_evidence PodRunning_ 1 3
             (store_of (k8s.PodData web_pending)
                (serving [k8s.PodData web_running]) false) None).
    reflexivity.
Defined.

(** A deployment handed to PodReady. *)
Lemma conversion_panic_cause_witness :
  let st := store_of (k8s.DeploymentData (web_deployment 1))
              (serving [k8s.DeploymentData (web_deployment 3)]) false in
  result (predicate PodReady_ 1 3) st = Panicked InterfaceConversion /\
  exists d',
    fetched 1 context.TODO 3 st = Some (d', None) /\
    k8s.kind d' <> k8s.KPod.
Proof.
  intros st. split; [reflexivity|].
  apply (conversion_panic_cause PodReady_ 1 3 st). reflexivity.
Defined.

(** A Condition made verbose on the spot, polling a pod. *)
Lemma New_WithVerboseLog_logs_witness :
  let st := store_of (k8s.PodData web_pending) (serving []) false in
  objects st !! 3%positive = Some (k8s.PodData web_pending) /\
  exists entry,
    sink (after (c <- (c <- New 2 ;; WithVerboseLog c) ;; predicate PodReady_ c 3) st)
    = (sink st ++ [entry])%list.
Proof.
  intros st. split; [reflexivity|].
  apply (New_WithVerboseLog_logs PodReady_ 2 3 st (k8s.PodData web_pending)).
  reflexivity.
Defined.

(** Two Conditions on one accessor; the second is made verbose. *)
Lemma WithVerboseLog_other_Condition_witness :
  let st := after (New 2) (store_of (k8s.PodData web_pending) (serving []) false) in
  conditions st !! 1%positive = Some {| resources := 2; verbose := false |} /\
  sink (after (WithVerboseLog 2 ;; predicate PodReady_ 1 3) st) = sink st.
Proof.
  intros st. split; [reflexivity|].
  apply (WithVerboseLog_other_Condition PodReady_ 2 1
           {| resources := 2; verbose := false |} 3 st);
    [discriminate|reflexivity|reflexivity].
Defined.
